(** * WhisperVault: the on-chain message store and its client hook

    A shallow embedding of [contracts/WhisperVault.sol] and of the parts of
    [frontend/hooks/useWhisperVault.ts] that the specification talks about.

    Solidity storage is a record holding a finite map; a transaction is a
    function from the call context and the state to either a new state with
    the events it emitted, or a revert.  [uint256] values are [N]; the
    checked subtraction of Solidity 0.8 is written out.  No function of the
    contract is payable, so a call carries no value, and gas is not
    modelled.  The base contract [LocalConfig] is not among the sources; the
    mapping is [private], out of its reach.

    The hook is a function on the React state and the browser storage.
    What it awaits ([getContract], the contract's calls, [decryptText]) is
    given by how it settles: a value, or what was thrown. *)

From Stdlib Require Import NArith.
From stdpp Require Import gmap strings list fin_maps pretty.

Open Scope N_scope.

(** ** Execution results *)

(** A failed [require] carries its reason string; a failed checked
    arithmetic operation or array access carries a panic code. *)
Inductive Failure : Type :=
| Error (reason : string)
| Panic (code : N).

Inductive result (A : Type) : Type :=
| Ok (a : A)
| Revert (f : Failure).

Arguments Ok {A} a.
Arguments Revert {A} f.

Definition bind {A B : Type} (r : result A) (k : A -> result B) : result B :=
  match r with
  | Ok a => k a
  | Revert f => Revert f
  end.

Notation "x <- r ;; k" := (bind r (fun x => k))
  (at level 100, r at next level, right associativity).

Definition require (cond : bool) (reason : string) : result unit :=
  if cond then Ok tt else Revert (Error reason).

(** Panic codes of the Solidity compiler. *)
Definition PANIC_ARITHMETIC : N := 17.   (* 0x11 *)
Definition PANIC_INDEX : N := 50.        (* 0x32 *)

(** [a - b] on [uint256] under Solidity ^0.8: reverts instead of wrapping. *)
Definition checked_sub (a b : N) : result N :=
  if a <? b then Revert (Panic PANIC_ARITHMETIC) else Ok (a - b).

Definition is_revert {A : Type} (r : result A) : bool :=
  match r with
  | Ok _ => false
  | Revert _ => true
  end.

(** ** The contract *)

Module WhisperVault.

Abbreviation address := N (only parsing).
Abbreviation bytes := (list Byte.byte) (only parsing).

(** [struct Message] *)
Record Message : Type := mkMessage {
  label : string;
  sender : address;
  encryptedContent : bytes;
  timestamp : N;
  isResponse : bool
}.

(** Contract storage: [mapping(address => Message[]) private _userMessages]. *)
Record State : Type := mkState {
  _userMessages : gmap address (list Message)
}.

(** What a call sees of its environment: [address(this)], [msg.sender] and
    [block.timestamp]. *)
Record Env : Type := mkEnv {
  this : address;
  msg_sender : address;
  block_timestamp : N
}.

Inductive Event : Type :=
| MessageStored (user : address) (messageIndex timestamp : N)
                (isResponse : bool) (size : N)
| MessagesCleared (user : address)
| DecryptionRequested (user : address) (timestamp : N).

(** The state right after deployment. *)
Definition initial : State := mkState ∅.

(** Reading [_userMessages[user]]: a key never written holds the empty
    array. *)
Definition messagesOf (s : State) (user : address) : list Message :=
  default [] (_userMessages s !! user).

(** [_userMessages[user].push(m)] *)
Definition push (user : address) (m : Message) (s : State) : State :=
  mkState (<[user := messagesOf s user ++ [m]]> (_userMessages s)).

(** [delete _userMessages[user]] *)
Definition delete_messages (user : address) (s : State) : State :=
  mkState (delete user (_userMessages s)).

(** [.length] of a dynamic array or of [bytes]. *)
Definition len {A : Type} (l : list A) : N := N.of_nat (length l).

(** *** Views *)

Definition getMessageCount (s : State) (user : address) : N :=
  len (messagesOf s user).

(** [_userMessages[user][index]]; the compiler's own bounds check panics. *)
Definition at_index (s : State) (user : address) (index : N) : result Message :=
  match messagesOf s user !! N.to_nat index with
  | Some m => Ok m
  | None => Revert (Panic PANIC_INDEX)
  end.

Definition getMessageMetadata (s : State) (user : address) (index : N)
  : result (address * N * bool) :=
  _ <- require (index <? len (messagesOf s user)) "Vault: Index error" ;;
  msg_ <- at_index s user index ;;
  Ok (sender msg_, timestamp msg_, isResponse msg_).

Definition getEncryptedContent (s : State) (user : address) (index : N)
  : result bytes :=
  _ <- require (index <? len (messagesOf s user)) "Vault: Index error" ;;
  msg_ <- at_index s user index ;;
  Ok (encryptedContent msg_).

Definition getMessage (s : State) (user : address) (index : N)
  : result (address * bytes * N * bool) :=
  _ <- require (index <? len (messagesOf s user)) "Vault: Index error" ;;
  msg_ <- at_index s user index ;;
  Ok (sender msg_, encryptedContent msg_, timestamp msg_, isResponse msg_).

Definition getAllMessages (s : State) (user : address) : list Message :=
  messagesOf s user.

(** *** Transactions *)

Definition storeMessage (e : Env) (content : bytes) (s : State)
  : result (State * list Event) :=
  _ <- require (0 <? len content) "Empty message" ;;
  _ <- require (len content <=? 16384) "Message too large" ;;
  let s' := push (this e)
                 {| label := "";
                    sender := msg_sender e;
                    encryptedContent := content;
                    timestamp := block_timestamp e;
                    isResponse := false |} s in
  messageIndex <- checked_sub (len (messagesOf s' (msg_sender e))) 1 ;;
  Ok (s', [MessageStored (msg_sender e) messageIndex (block_timestamp e)
                         false (len content)]).

Definition storeResponse (e : Env) (content : bytes) (s : State)
  : result (State * list Event) :=
  _ <- require (0 <? len content) "Empty message" ;;
  _ <- require (len content <=? 16384) "Message too large" ;;
  let s' := push (this e)
                 {| label := "";
                    sender := this e;
                    encryptedContent := content;
                    timestamp := block_timestamp e;
                    isResponse := true |} s in
  messageIndex <- checked_sub (len (messagesOf s' (msg_sender e))) 1 ;;
  Ok (s', [MessageStored (msg_sender e) messageIndex (block_timestamp e)
                         true (len content)]).

Definition clearMessages (e : Env) (s : State) : result (State * list Event) :=
  let s' := delete_messages (msg_sender e) s in
  Ok (s', [MessagesCleared (msg_sender e)]).

Definition requestDecryption (e : Env) (s : State)
  : result (State * list Event) :=
  Ok (s, [DecryptionRequested (msg_sender e) (block_timestamp e)]).

(** *** Transaction sequences *)

(** The state-changing entry points of the ABI. *)
Inductive Call : Type :=
| CallStoreMessage (content : bytes)
| CallStoreResponse (content : bytes)
| CallClearMessages
| CallRequestDecryption.

Definition run (c : Call) (e : Env) (s : State) : result (State * list Event) :=
  match c with
  | CallStoreMessage content => storeMessage e content s
  | CallStoreResponse content => storeResponse e content s
  | CallClearMessages => clearMessages e s
  | CallRequestDecryption => requestDecryption e s
  end.

(** A reverted transaction leaves storage as it was. *)
Definition after (c : Call) (e : Env) (s : State) : State :=
  match run c e s with
  | Ok (s', _) => s'
  | Revert _ => s
  end.

(** States the contract deployed at [vault] can be in: any number of calls,
    by any senders at any block times, from the state after deployment. *)
Inductive reachable (vault : address) : State -> Prop :=
| reachable_initial : reachable vault initial
| reachable_step s c from now :
    reachable vault s ->
    reachable vault (after c (mkEnv vault from now) s).

(** *** Vocabulary for the statements *)

(** The record built by [storeMessage]. *)
Definition userRecord (e : Env) (content : list Byte.byte) : Message :=
  {| label := ""; sender := msg_sender e; encryptedContent := content;
     timestamp := block_timestamp e; isResponse := false |}.

(** The record built by [storeResponse]. *)
Definition responseRecord (e : Env) (content : list Byte.byte) : Message :=
  {| label := ""; sender := this e; encryptedContent := content;
     timestamp := block_timestamp e; isResponse := true |}.

(** *** Sequences of appends by one sender *)





(** *** Sample deployment *)

Definition vault : address := 0xC0FFEE.
Definition alice : address := 0xA11CE.
Definition bob : address := 0xB0B.

Definition one_byte : bytes := [Byte.x2a].
Definition two_bytes : bytes := [Byte.x2a; Byte.x2b].

(** A storage holding two records for [alice] and one for [bob]. *)
Definition stored : State :=
  mkState {[ alice := [mkMessage "" alice one_byte 10 false;
                       mkMessage "" vault two_bytes 11 true];
             bob := [mkMessage "" bob one_byte 12 false] ]}.

(** The calls of the repository's test "should store multiple messages in
    sequence", sent by [alice] to a fresh deployment. *)
Definition alice_env : Env := mkEnv vault alice 1.
Definition after_three_stores : State :=
  after (CallStoreMessage one_byte) alice_env
    (after (CallStoreResponse two_bytes) alice_env
       (after (CallStoreMessage one_byte) alice_env initial)).


(** The contract calling its own [storeMessage]. *)
Definition after_self_store : State :=
  after (CallStoreMessage one_byte) (mkEnv vault vault 7) initial.
Definition oversized : bytes := repeat Byte.x00 (N.to_nat 16385).

End WhisperVault.

(** ** The client hook [useWhisperVault] *)

(** What a JavaScript [throw] carries: an [Error] object with its message,
    or some other value. *)
Inductive Thrown : Type :=
| JsError (message : string)
| JsValue.

(** How an awaited call settles. *)
Inductive outcome (A : Type) : Type :=
| Returned (a : A)
| Threw (t : Thrown).

Arguments Returned {A} a.
Arguments Threw {A} t.

Definition threw {A : Type} (o : outcome A) : bool :=
  match o with
  | Returned _ => false
  | Threw _ => true
  end.

Module Hook.

(** [interface Message] *)
Record Message : Type := mkMessage {
  id : Z;
  sender : string;
  encryptedContent : string;
  timestamp : Z;
  isResponse : bool;
  decryptedText : option string
}.

(** One element of what [contract.getAllMessages] resolves to. *)
Record ChainMessage : Type := mkChainMessage {
  chain_label : string;
  chain_sender : string;
  chain_encryptedContent : string;
  chain_timestamp : Z;
  chain_isResponse : bool
}.

(** The contract object, as far as the hook uses it here: how its calls
    settle.  [requestDecryption] stands for the call followed by
    [tx.wait()]. *)
Record Contract : Type := mkContract {
  getAllMessages : string -> outcome (list ChainMessage);
  requestDecryption : outcome unit
}.

(** The React state of the hook together with the browser's
    [localStorage]. *)
Record World : Type := mkWorld {
  messages : list Message;
  loading : bool;
  error : option string;
  localStorage : gmap string string
}.

Definition setMessages (ms : list Message) (w : World) : World :=
  mkWorld ms (loading w) (error w) (localStorage w).

Definition setLoading (b : bool) (w : World) : World :=
  mkWorld (messages w) b (error w) (localStorage w).

Definition setError (e : option string) (w : World) : World :=
  mkWorld (messages w) (loading w) e (localStorage w).

Definition getItem (key : string) (w : World) : option string :=
  localStorage w !! key.

Definition removeItem (key : string) (w : World) : World :=
  mkWorld (messages w) (loading w) (error w) (delete key (localStorage w)).

(** Truthiness of a string: only the empty string is falsy. *)
Definition truthy (s : string) : bool :=
  match s with
  | EmptyString => false
  | String _ _ => true
  end.

(** [hay.includes(needle)] *)
Definition includes (needle hay : string) : bool :=
  match String.index 0 needle hay with
  | Some _ => true
  | None => false
  end.

(** [`whisperlink-${address}`] *)
Definition storageKey (address : string) : string :=
  String.append "whisperlink-" address.

(** [err instanceof Error ? err.message : fallback] *)
Definition messageOr (fallback : string) (t : Thrown) : string :=
  match t with
  | JsError message => message
  | JsValue => fallback
  end.

Definition withDecryptedText (msg : Message) (text : string) : Message :=
  mkMessage (id msg) (sender msg) (encryptedContent msg) (timestamp msg)
            (isResponse msg) (Some text).

Section Hook.

(** [decryptText] is imported from [./useCrypto]; [JSON.parse] is the
    platform's, read at the type [Message[]] that [setMessages] expects.
    [Threw] is a rejected promise for the first and a [SyntaxError] for
    the second. *)
Variable decryptText : string -> string -> outcome string.
Variable JSON_parse : string -> outcome (list Message).

(** The result of [getContract()], and the connected wallet address. *)
Variable getContract : outcome (option Contract).
Variable address : option string.

(** The [map] callback of [loadMessages].  [Number(msg.timestamp)] is the
    chain's value for a time up to 2^53 and a rounded one beyond; the
    callback here keeps the chain's value, so what is stated about a
    loaded time is stated for that range. *)
Definition loaded (index : nat) (msg : ChainMessage) : Message :=
  {| id := Z.of_nat index;
     sender := chain_sender msg;
     encryptedContent := chain_encryptedContent msg;
     timestamp := chain_timestamp msg;
     isResponse := chain_isResponse msg;
     decryptedText := None |}.

(** The [try] block of [loadMessages], from [await getContract()] on. *)
Definition loadMessages_try (address : string) (w : World) : World * outcome unit :=
  match getContract with
  | Threw t => (w, Threw t)
  | Returned None =>
      (* Demo mode - use local storage *)
      match getItem (storageKey address) w with
      | Some stored =>
          if truthy stored then
            match JSON_parse stored with
            | Returned parsed => (setMessages parsed w, Returned tt)
            | Threw _ =>
                let w := removeItem (storageKey address) w in
                (setMessages [] w, Returned tt)
            end
          else (w, Returned tt)
      | None => (w, Returned tt)
      end
  | Returned (Some contract) =>
      match getAllMessages contract address with
      | Threw t => (w, Threw t)
      | Returned allMessages => (setMessages (imap loaded allMessages) w, Returned tt)
      end
  end.

(** The [catch] block of [loadMessages]. *)
Definition loadMessages_catch (address : string) (err : Thrown) (w : World) : World :=
  let errorMessage := messageOr "Unknown error" err in
  let w :=
    if includes "missing revert data" errorMessage || includes "CALL_EXCEPTION" errorMessage
    then setError (Some "Contract not available on this network. Please check your connection.") w
    else setError (Some (String.append "Failed to load messages: " errorMessage)) w in
  (* Fallback to local storage *)
  match getItem (storageKey address) w with
  | Some stored =>
      if truthy stored then
        match JSON_parse stored with
        | Returned parsed => setMessages parsed w
        | Threw _ => setMessages [] w
        end
      else w
  | None => w
  end.

Definition loadMessages (w : World) : World * outcome unit :=
  match address with
  | None => (w, Returned tt)
  | Some address =>
      if truthy address then
        let w := setLoading true w in
        let w := setError None w in
        let w :=
          match loadMessages_try address w with
          | (w, Returned _) => w
          | (w, Threw err) => loadMessages_catch address err w
          end in
        (setLoading false w, Returned tt)
      else (w, Returned tt)
  end.

(** The [map] callback of [decryptAllMessages]: its own [try]/[catch]
    turns a rejected [decryptText] into a marked message. *)
Definition decryptOne (password : string) (msg : Message) : Message :=
  match decryptText (encryptedContent msg) password with
  | Returned decrypted => withDecryptedText msg decrypted
  | Threw _ => withDecryptedText msg "[Decryption failed]"
  end.

(** The [try] block of [decryptAllMessages].  The on-chain request is
    optional: its failure is caught on the spot. *)
Definition decryptAllMessages_try (password : string) (w : World)
  : World * outcome unit :=
  if (length (messages w) =? 0)%nat then
    (w, Threw (JsError "No messages to decrypt"))
  else
    match getContract with
    | Threw t => (w, Threw t)
    | Returned contract =>
        let _ :=
          match contract with
          | Some contract => requestDecryption contract
          | None => Returned tt
          end in
        let decryptedMessages := map (decryptOne password) (messages w) in
        (setMessages decryptedMessages w, Returned tt)
    end.

Definition decryptAllMessages (password : string) (w : World)
  : World * outcome unit :=
  let w := setLoading true w in
  let w := setError None w in
  match decryptAllMessages_try password w with
  | (w, Returned _) => (setLoading false w, Returned tt)
  | (w, Threw err) =>
      let w := setError (Some (messageOr "Decryption failed" err)) w in
      (setLoading false w, Threw err)
  end.

End Hook.

(** Whether [loadMessages] gets to read the cache: in demo mode, and when
    [getContract] or [getAllMessages] throws. *)
Definition readsCache (getContract : outcome (option Contract)) (address : string)
  : bool :=
  match getContract with
  | Threw _ => true
  | Returned None => true
  | Returned (Some contract) => threw (getAllMessages contract address)
  end.

End Hook.

(** ** [JSON.parse]

    The platform function the hook calls on the cached text, modelled
    after the JSON grammar (RFC 8259): a recursive-descent reader that
    either returns the value or fails, which is the [SyntaxError] of
    [JSON.parse].  String values are kept as the text between their quotes
    and numbers as their lexeme. *)

Module JSON.
Import Stdlib.Strings.Ascii.

#[local] Set Warnings "-register-all".
Inductive value : Type :=
| Null
| Bool (b : bool)
| Number (lexeme : string)
| Str (text : string)
| Array (items : list value)
| Object (members : list (string * value)).

Definition code (c : Ascii.ascii) : N := Ascii.N_of_ascii c.

Definition is_ws (c : Ascii.ascii) : bool :=
  (code c =? 32) || (code c =? 9) || (code c =? 10) || (code c =? 13).

Definition is_digit (c : Ascii.ascii) : bool :=
  (48 <=? code c) && (code c <=? 57).

Definition is_hex (c : Ascii.ascii) : bool :=
  is_digit c
  || ((65 <=? code c) && (code c <=? 70))
  || ((97 <=? code c) && (code c <=? 102)).

Definition is_char (c : Ascii.ascii) (lit : Ascii.ascii) : bool := Ascii.eqb c lit.
Arguments is_char c lit%_char.

Definition is_quote (c : Ascii.ascii) : bool := code c =? 34.

(** The characters that may follow a backslash, [u] apart. *)
Definition is_escape (c : Ascii.ascii) : bool :=
  existsb (N.eqb (code c)) [34; 92; 47; 98; 102; 110; 114; 116].

Fixpoint skip_ws (s : string) : string :=
  match s with
  | String c rest => if is_ws c then skip_ws rest else s
  | EmptyString => s
  end.

(** [expect lit s]: what follows [lit] at the head of [s]. *)
Fixpoint expect (lit s : string) : option string :=
  match lit, s with
  | EmptyString, _ => Some s
  | String a lit, String b s => if Ascii.eqb a b then expect lit s else None
  | String _ _, EmptyString => None
  end.

(** The longest prefix of digits, and the rest. *)
Fixpoint digits (s : string) : string * string :=
  match s with
  | String c rest =>
      if is_digit c then
        let '(ds, rest) := digits rest in (String c ds, rest)
      else (EmptyString, s)
  | EmptyString => (EmptyString, s)
  end.

Definition some_digits (s : string) : option (string * string) :=
  match digits s with
  | (EmptyString, _) => None
  | (ds, rest) => Some (ds, rest)
  end.

(** [int = "0" / digit1-9 *DIGIT] *)
Definition int_part (s : string) : option (string * string) :=
  match s with
  | String c rest =>
      if code c =? 48 then Some ("0"%string, rest)
      else some_digits s
  | EmptyString => None
  end.

Definition frac_part (s : string) : option (string * string) :=
  match s with
  | String "."%char rest =>
      match some_digits rest with
      | Some (ds, rest) => Some (String "."%char ds, rest)
      | None => None
      end
  | _ => Some (EmptyString, s)
  end.

Definition exp_digits (mark : string) (s : string) : option (string * string) :=
  match s with
  | String "+"%char rest =>
      match some_digits rest with
      | Some (ds, rest) => Some (String.append mark (String "+"%char ds), rest)
      | None => None
      end
  | String "-"%char rest =>
      match some_digits rest with
      | Some (ds, rest) => Some (String.append mark (String "-"%char ds), rest)
      | None => None
      end
  | _ =>
      match some_digits s with
      | Some (ds, rest) => Some (String.append mark ds, rest)
      | None => None
      end
  end.

Definition exp_part (s : string) : option (string * string) :=
  match s with
  | String "e"%char rest => exp_digits "e" rest
  | String "E"%char rest => exp_digits "E" rest
  | _ => Some (EmptyString, s)
  end.

(** [number = [ minus ] int [ frac ] [ exp ]] *)
Definition number (s : string) : option (string * string) :=
  let '(sign, s) :=
    match s with
    | String "-"%char rest => ("-"%string, rest)
    | _ => (EmptyString, s)
    end in
  match int_part s with
  | Some (i, s) =>
      match frac_part s with
      | Some (f, s) =>
          match exp_part s with
          | Some (e, s) =>
              Some (String.append sign (String.append i (String.append f e)), s)
          | None => None
          end
      | None => None
      end
  | None => None
  end.

(** The text of a string up to its closing quote; [s] starts right after
    the opening one. *)
Fixpoint chars (s : string) : option (string * string) :=
  match s with
  | EmptyString => None
  | String c rest =>
      if is_quote c then Some (EmptyString, rest)
      else if code c <? 32 then None
      else if code c =? 92 then
        match rest with
        | String "u"%char (String h1 (String h2 (String h3 (String h4 rest')))) =>
            if is_hex h1 && is_hex h2 && is_hex h3 && is_hex h4 then
              match chars rest' with
              | Some (text, after) =>
                  Some (String c (String "u"%char (String h1 (String h2
                          (String h3 (String h4 text))))), after)
              | None => None
              end
            else None
        | String e rest' =>
            if is_escape e then
              match chars rest' with
              | Some (text, after) => Some (String c (String e text), after)
              | None => None
              end
            else None
        | EmptyString => None
        end
      else
        match chars rest with
        | Some (text, after) => Some (String c text, after)
        | None => None
        end
  end.

(** One value, then the elements of an array after its first, then the
    members of an object after its first.  The fuel bounds the nesting and
    the number of elements; [read] gives enough for the whole text. *)
Fixpoint read_value (fuel : nat) (s : string) : option (value * string) :=
  match fuel with
  | O => None
  | S fuel =>
      match skip_ws s with
      | EmptyString => None
      | String c rest as s =>
          if is_char c "n" then rest ← expect "null" s; Some (Null, rest)
          else if is_char c "t" then rest ← expect "true" s; Some (Bool true, rest)
          else if is_char c "f" then rest ← expect "false" s; Some (Bool false, rest)
          else if is_quote c then '(text, rest) ← chars rest; Some (Str text, rest)
          else if is_char c "[" then
            match expect "]" (skip_ws rest) with
            | Some rest => Some (Array [], rest)
            | None =>
                '(first, rest) ← read_value fuel rest;
                '(others, rest) ← read_elements fuel rest;
                Some (Array (first :: others), rest)
            end
          else if is_char c "{" then
            match expect "}" (skip_ws rest) with
            | Some rest => Some (Object [], rest)
            | None =>
                '(member, rest) ← read_member fuel rest;
                '(others, rest) ← read_members fuel rest;
                Some (Object (member :: others), rest)
            end
          else '(lexeme, rest) ← number s; Some (Number lexeme, rest)
      end
  end
with read_member (fuel : nat) (s : string) : option ((string * value) * string) :=
  match fuel with
  | O => None
  | S fuel =>
      match skip_ws s with
      | EmptyString => None
      | String c rest =>
          if is_quote c then
            '(key, rest) ← chars rest;
            rest ← expect ":" (skip_ws rest);
            '(v, rest) ← read_value fuel rest;
            Some ((key, v), rest)
          else None
      end
  end
with read_elements (fuel : nat) (s : string) : option (list value * string) :=
  match fuel with
  | O => None
  | S fuel =>
      match skip_ws s with
      | EmptyString => None
      | String c rest =>
          if is_char c "]" then Some ([], rest)
          else if is_char c "," then
            '(v, rest) ← read_value fuel rest;
            '(others, rest) ← read_elements fuel rest;
            Some (v :: others, rest)
          else None
      end
  end
with read_members (fuel : nat) (s : string)
  : option (list (string * value) * string) :=
  match fuel with
  | O => None
  | S fuel =>
      match skip_ws s with
      | EmptyString => None
      | String c rest =>
          if is_char c "}" then Some ([], rest)
          else if is_char c "," then
            '(member, rest) ← read_member fuel rest;
            '(others, rest) ← read_members fuel rest;
            Some (member :: others, rest)
          else None
      end
  end.

(** A whole text: one value and nothing but white space after it. *)
Definition read (s : string) : option value :=
  '(v, rest) ← read_value (2 + String.length s) s;
  match skip_ws rest with
  | EmptyString => Some v
  | String _ _ => None
  end.

(** *** Reading a value at the type [Message[]]

    TypeScript's cast checks nothing; a field that is absent or of another
    type reads as the zero of its type here. *)

(** The last member of that name, as [JSON.parse] keeps it. *)
Definition field (name : string) (members : list (string * value)) : option value :=
  snd <$> last (filter (λ kv, bool_decide (fst kv = name)) members).

Fixpoint N_of_digits (acc : N) (s : string) : N :=
  match s with
  | String c rest =>
      if is_digit c then N_of_digits (10 * acc + (code c - 48)) rest else acc
  | EmptyString => acc
  end.

Definition integer (lexeme : string) : Z :=
  match lexeme with
  | String "-"%char rest => Z.opp (Z.of_N (N_of_digits 0 rest))
  | _ => Z.of_N (N_of_digits 0 lexeme)
  end.

Definition as_Z (v : option value) : Z :=
  match v with
  | Some (Number lexeme) => integer lexeme
  | _ => 0%Z
  end.

Definition as_string (v : option value) : string :=
  match v with
  | Some (Str text) => text
  | _ => EmptyString
  end.

Definition as_bool (v : option value) : bool :=
  match v with
  | Some (Bool b) => b
  | _ => false
  end.

Definition as_text (v : option value) : option string :=
  match v with
  | Some (Str text) => Some text
  | _ => None
  end.

Definition as_message (v : value) : Hook.Message :=
  let members := match v with Object members => members | _ => [] end in
  {| Hook.id := as_Z (field "id" members);
     Hook.sender := as_string (field "sender" members);
     Hook.encryptedContent := as_string (field "encryptedContent" members);
     Hook.timestamp := as_Z (field "timestamp" members);
     Hook.isResponse := as_bool (field "isResponse" members);
     Hook.decryptedText := as_text (field "decryptedText" members) |}.

Definition as_messages (v : value) : list Hook.Message :=
  match v with
  | Array items => map as_message items
  | _ => []
  end.

(** [JSON.parse(text)] as the hook uses it. *)
Definition parse (text : string) : outcome (list Hook.Message) :=
  match read text with
  | Some v => Returned (as_messages v)
  | None => Threw (JsError "SyntaxError")
  end.

End JSON.

(** ** The client codec [useCrypto] *)

Module Codec.

Section Codec.

(** The two primitives the codec is built on: a password-based key
    derivation function, and an authenticated cipher whose ciphertext
    embeds its tag and whose decryption fails when the tag does not
    verify. *)
Variable key : Type.
Variable deriveKey : string -> list Byte.byte -> key.
Variable seal : key -> list Byte.byte -> list Byte.byte -> list Byte.byte.
Variable unseal : key -> list Byte.byte -> list Byte.byte -> option (list Byte.byte).

(** The fixed lengths of the two prefixes of a payload. *)
Variables SALT_LENGTH IV_LENGTH : nat.

(** Modelled from the spec: [encryptText] of [frontend/hooks/useCrypto.ts],
    which is not among the sources.  The key is derived from the password
    and a fresh random salt, the text is encrypted under a fresh random
    initialization vector, and the payload is salt, then vector, then
    ciphertext.  The two random draws are arguments here. *)
Definition encryptText (salt iv : list Byte.byte) (plaintext password : string)
  : list Byte.byte :=
  let k := deriveKey password salt in
  salt ++ iv ++ seal k iv (String.list_byte_of_string plaintext).

(** Modelled from the spec: [decryptText] of [frontend/hooks/useCrypto.ts],
    which is not among the sources.  The salt and the vector are read back
    from their fixed-length prefixes, the key is derived again from the
    embedded salt and the password, and the rest is decrypted, which
    verifies the tag; [None] is the decryption failure. *)
Definition decryptText (payload : list Byte.byte) (password : string)
  : option string :=
  if (length payload <? SALT_LENGTH + IV_LENGTH)%nat then None
  else
    let salt := take SALT_LENGTH payload in
    let iv := take IV_LENGTH (drop SALT_LENGTH payload) in
    let ciphertext := drop (SALT_LENGTH + IV_LENGTH) payload in
    let k := deriveKey password salt in
    String.string_of_list_byte <$> unseal k iv ciphertext.

End Codec.

(** *** A small instance

    Enough to run the codec: the key is the password followed by the
    salt, and sealing puts key and vector in front of the text as the tag. *)

#[local] Instance byte_eq_dec : EqDecision Byte.byte := Strings.Byte.byte_eq_dec.

Definition toy_deriveKey (password : string) (salt : list Byte.byte)
  : list Byte.byte :=
  String.list_byte_of_string password ++ salt.

Definition toy_seal (k iv plaintext : list Byte.byte) : list Byte.byte :=
  (k ++ iv) ++ plaintext.

Definition toy_unseal (k iv ciphertext : list Byte.byte)
  : option (list Byte.byte) :=
  if decide (take (length (k ++ iv)) ciphertext = k ++ iv)
  then Some (drop (length (k ++ iv)) ciphertext)
  else None.

Definition sample_salt : list Byte.byte := [Byte.x01; Byte.x02; Byte.x03; Byte.x04].
Definition sample_iv : list Byte.byte := [Byte.x0a; Byte.x0b; Byte.x0c].

End Codec.
(** ** Sample inputs of the hook *)

Module Samples.
Import Hook.

Open Scope string_scope.

(** A stand-in for [decryptText]: a payload opens if it starts with the
    password and the text is what follows; otherwise the promise rejects
    the way Web Crypto does. *)
Definition sample_decryptText (payload password : string) : outcome string :=
  if String.prefix password payload then
    Returned (String.substring (String.length password)
                (String.length payload - String.length password) payload)
  else Threw (JsError "OperationError").

Definition wallet : string := "0xA11CE".

Definition hello : Message := mkMessage 0 wallet "pw:hello" 100 false None.
Definition garbled : Message := mkMessage 1 "system" "zz:garbled" 101 true None.
Definition world : Message := mkMessage 2 wallet "pw:world" 102 false None.

Definition three_messages : World :=
  mkWorld [hello; garbled; world] false None ∅.

(** A contract object whose reads fail. *)
Definition unreachable_contract : Contract :=
  mkContract (λ _, Threw (JsError "CALL_EXCEPTION")) (Threw (JsError "rejected")).

(** The cache entry of [wallet] holds text that is not JSON. *)
Definition malformed_cache : World :=
  mkWorld [hello] false None {[ storageKey wallet := "{not json" ]}.

(** The cache entry of [wallet] holds the empty string. *)
Definition empty_cache : World :=
  mkWorld [hello] false None {[ storageKey wallet := "" ]}.

End Samples.

(** ** The rest of [useWhisperVault.ts] *)

(** A JavaScript string is a Rocq string, one character per UTF-16 code
    unit; this covers the strings whose code units are below 256, and
    [String.length] is their [.length]. *)

Module Deployments.

Open Scope string_scope.

(** An entry of [deployments.json] under [WhisperVault]. *)
Record Deployment : Type := mkDeployment {
  address : string;
  chainId : N;
  chainName : string
}.

(** [ZeroAddress] of ethers, and the literal the code compares with. *)
Definition ZeroAddress : string := "0x0000000000000000000000000000000000000000".

(** The module-level [deploymentCache]; [None] is [null].  A call is taken
    to settle before the next one starts, so [deploymentFetchPromise] is
    [null] whenever a call begins. *)
Abbreviation Cache := (option (gmap string Deployment)) (only parsing).

(** [fetchDeployments()].  [fetched] is how [fetch('/deployments.json')]
    followed by [response.json()] settles, read at [data.WhisperVault]:
    [Returned None] when the file has no such section. *)
Definition fetchDeployments
    (fetched : outcome (option (gmap string Deployment))) (cache : Cache)
  : gmap string Deployment * Cache :=
  match cache with
  | Some deployments => (deployments, cache)
  | None =>
      match fetched with
      | Returned data =>
          let deployments := default ∅ data in
          (deployments, Some deployments)
      | Threw _ => (∅, None)
      end
  end.

Definition clearDeploymentCache (cache : Cache) : Cache := None.

(** [getContractAddress(chainId)]; [None] is [null], and a [chainId] that
    is [undefined] or 0 is falsy.  [chainId.toString()] is the decimal text
    for a chain id below 2^53, which [pretty] writes; what is stated about
    the key looked up is stated for that range. *)
Definition getContractAddress
    (fetched : outcome (option (gmap string Deployment)))
    (chain : option N) (cache : Cache) : option string * Cache :=
  match chain with
  | None => (None, cache)
  | Some 0%N => (None, cache)
  | Some chain =>
      let '(deployments, cache) := fetchDeployments fetched cache in
      match deployments !! pretty chain with
      | None => (None, cache)
      | Some entry =>
          if negb (Hook.truthy (address entry))
             || bool_decide (address entry = ZeroAddress)
             || bool_decide (address entry = "0x0000000000000000000000000000000000000000")
          then (None, cache)
          else (Some (address entry), cache)
      end
  end.

End Deployments.

Module Client.
Import Hook.

Open Scope string_scope.

(** [generateAutoResponse] *)
Definition responses : list string :=
  [ "Thank you for your encrypted message. Your data is secure.";
    "Message received and stored on-chain with FHE protection.";
    "Your private communication has been recorded securely.";
    "Acknowledged. This conversation is end-to-end encrypted.";
    "Message stored. Only you can decrypt this conversation." ].

(** An index out of range reads as the empty string here. *)
Definition generateAutoResponse (userMessage : string) : string :=
  let index := (String.length userMessage mod length responses)%nat in
  default "" (responses !! index).

(** The contract object with the write calls of the hook; each stands for
    the call followed by [tx.wait()]. *)
Record Signer : Type := mkSigner {
  reads : Contract;
  storeMessage : string -> outcome unit;
  storeResponse : string -> outcome unit;
  clearMessages_tx : outcome unit
}.

Definition setItem (key value : string) (w : World) : World :=
  mkWorld (messages w) (loading w) (error w) (<[key := value]> (localStorage w)).

Section GetContract.

(** The wallet client of wagmi, and what [new BrowserProvider(walletClient)],
    [provider.getSigner()] and [new Contract(address, abi, signer)] make of
    it for a contract address. *)
Variable WalletClient : Type.
Variable connect : WalletClient -> string -> outcome Signer.
Variable fetched : outcome (option (gmap string Deployments.Deployment)).

(** [getContract] of the hook. *)
Definition getContract (walletClient : option WalletClient) (chainId : option N)
    (cache : option (gmap string Deployments.Deployment))
  : outcome (option Signer) * option (gmap string Deployments.Deployment) :=
  match walletClient, chainId with
  | None, _ => (Returned None, cache)
  | _, None => (Returned None, cache)
  | _, Some 0%N => (Returned None, cache)
  | Some walletClient, Some _ =>
      match Deployments.getContractAddress fetched chainId cache with
      | (None, cache) => (Returned None, cache)
      | (Some contractAddress, cache) =>
          match connect walletClient contractAddress with
          | Returned contract => (Returned (Some contract), cache)
          | Threw t => (Threw t, cache)
          end
      end
  end.

End GetContract.

Section Actions.

(** [encryptText] of [./useCrypto] draws a fresh salt and vector on each
    call; the draw is its first argument here.  [JSON.stringify] is the
    platform's, at the type [Message[]]. *)
Variable entropy : Type.
Variable encryptText : entropy -> string -> string -> outcome string.
Variable JSON_parse : string -> outcome (list Message).
Variable JSON_stringify : list Message -> string.

Variable getContract : outcome (option Signer).
Variable address : option string.

(** How [getContract()] settles when [loadMessages], called at the end of
    an on-chain send, awaits it once more. *)
Variable getContractAgain : outcome (option Contract).

(** [Math.floor(Date.now() / 1000)] *)
Variable now : Z.

(** The [try] block of [sendMessage]. *)
Definition sendMessage_try (address : string) (draw1 draw2 : entropy)
    (messageText password : string) (w : World) : World * outcome unit :=
  match encryptText draw1 messageText password with
  | Threw t => (w, Threw t)
  | Returned encryptedMessage =>
      let responseText := generateAutoResponse messageText in
      match encryptText draw2 responseText password with
      | Threw t => (w, Threw t)
      | Returned encryptedResponse =>
          match getContract with
          | Threw t => (w, Threw t)
          | Returned (Some contract) =>
              let messageBytes := "0x" +:+ encryptedMessage in
              let responseBytes := "0x" +:+ encryptedResponse in
              match storeMessage contract messageBytes with
              | Threw t => (w, Threw t)
              | Returned _ =>
                  match storeResponse contract responseBytes with
                  | Threw t => (w, Threw t)
                  | Returned _ =>
                      (fst (loadMessages JSON_parse getContractAgain
                              (Some address) w), Returned tt)
                  end
              end
          | Returned None =>
              let newMessages :=
                (messages w ++
                [ {| id := Z.of_nat (length (messages w));
                     sender := address;
                     encryptedContent := encryptedMessage;
                     timestamp := now;
                     isResponse := false;
                     decryptedText := None |};
                  {| id := Z.of_nat (length (messages w)) + 1;
                     sender := "system";
                     encryptedContent := encryptedResponse;
                     timestamp := now + 1;
                     isResponse := true;
                     decryptedText := None |} ])%list in
              let w := setMessages newMessages w in
              let w := setItem (storageKey address) (JSON_stringify newMessages) w in
              (w, Returned tt)
          end
      end
  end.

Definition sendMessage (draw1 draw2 : entropy) (messageText password : string)
    (w : World) : World * outcome unit :=
  match address with
  | None => (w, Threw (JsError "Not connected"))
  | Some address =>
      if truthy address then
        let w := setLoading true w in
        let w := setError None w in
        match sendMessage_try address draw1 draw2 messageText password w with
        | (w, Returned _) => (setLoading false w, Returned tt)
        | (w, Threw err) =>
            let w := setError (Some (messageOr "Failed to send" err)) w in
            (setLoading false w, Threw err)
        end
      else (w, Threw (JsError "Not connected"))
  end.

(** The [try] block of the hook's [clearMessages]. *)
Definition clearMessages_try (address : string) (w : World) : World * outcome unit :=
  let w := setLoading true w in
  match getContract with
  | Threw t => (w, Threw t)
  | Returned contract =>
      let cleared :=
        match contract with
        | Some contract => clearMessages_tx contract
        | None => Returned tt
        end in
      match cleared with
      | Threw t => (w, Threw t)
      | Returned _ =>
          let w := setMessages [] w in
          (removeItem (storageKey address) w, Returned tt)
      end
  end.

Definition clearMessages (w : World) : World * outcome unit :=
  match address with
  | None => (w, Returned tt)
  | Some address =>
      if truthy address then
        match clearMessages_try address w with
        | (w, Returned _) => (setLoading false w, Returned tt)
        | (w, Threw err) =>
            let w := setError (Some (messageOr "Failed to clear" err)) w in
            (setLoading false w, Returned tt)
        end
      else (w, Returned tt)
  end.

End Actions.

(** Whether a contract call of [loadMessages] throws: [getContract()]
    itself, or [getAllMessages] on the object it gave. *)
Definition contractFailed (getContract : outcome (option Contract)) (address : string)
  : bool :=
  match getContract with
  | Threw _ => true
  | Returned None => false
  | Returned (Some contract) => threw (getAllMessages contract address)
  end.

(** What the on-chain part of the hook's [clearMessages] throws, if it
    does: [getContract()] itself, or the clearing transaction. *)
Definition clearFailure (getContract : outcome (option Signer)) : option Thrown :=
  match getContract with
  | Threw t => Some t
  | Returned None => None
  | Returned (Some contract) =>
      match clearMessages_tx contract with
      | Threw t => Some t
      | Returned _ => None
      end
  end.

(** The ids of a list are the positions of its messages. *)
Definition numbered (ms : list Message) : Prop :=
  ∀ i m, ms !! i = Some m -> id m = Z.of_nat i.

End Client.

(** ** [JSON.stringify] on a message list

    The text the platform writes for an array of message objects: the
    members in the order the hook creates them, [decryptedText] left out
    when it is [undefined], numbers in decimal, and in strings the quote,
    the backslash and the control characters escaped. *)

Module Stringify.
Import Hook.

Open Scope string_scope.

Definition quote : string := String (Ascii.ascii_of_N 34) "".
Definition backslash : string := String (Ascii.ascii_of_N 92) "".

Definition hex_digit (n : N) : string :=
  String (Ascii.ascii_of_N (if (n <? 10)%N then 48 + n else 87 + n)) "".

Definition escape_char (c : Ascii.ascii) : string :=
  let n := Ascii.N_of_ascii c in
  if (n =? 34)%N then backslash +:+ quote
  else if (n =? 92)%N then backslash +:+ backslash
  else if (n =? 8)%N then backslash +:+ "b"
  else if (n =? 12)%N then backslash +:+ "f"
  else if (n =? 10)%N then backslash +:+ "n"
  else if (n =? 13)%N then backslash +:+ "r"
  else if (n =? 9)%N then backslash +:+ "t"
  else if (n <? 32)%N then
    backslash +:+ "u00" +:+ hex_digit (n / 16) +:+ hex_digit (n mod 16)
  else String c "".

Fixpoint escape (s : string) : string :=
  match s with
  | EmptyString => ""
  | String c rest => escape_char c +:+ escape rest
  end.

Definition text (s : string) : string := quote +:+ escape s +:+ quote.

Definition member (name value : string) : string :=
  quote +:+ name +:+ quote +:+ ":" +:+ value.

Definition boolean (b : bool) : string := if b then "true" else "false".

Definition message (m : Message) : string :=
  "{" +:+ member "id" (pretty (id m))
  +:+ "," +:+ member "sender" (text (sender m))
  +:+ "," +:+ member "encryptedContent" (text (encryptedContent m))
  +:+ "," +:+ member "timestamp" (pretty (timestamp m))
  +:+ "," +:+ member "isResponse" (boolean (isResponse m))
  +:+ match decryptedText m with
      | Some t => "," +:+ member "decryptedText" (text t)
      | None => ""
      end
  +:+ "}".

Fixpoint elements (ms : list Message) : string :=
  match ms with
  | [] => ""
  | [m] => message m
  | m :: ms => message m +:+ "," +:+ elements ms
  end.

Definition stringify (ms : list Message) : string := "[" +:+ elements ms +:+ "]".

End Stringify.

(** ** The chat component [WhisperChat] *)

Module WhisperChat.
Import Hook.

Open Scope string_scope.

Definition code (c : Ascii.ascii) : N := Ascii.N_of_ascii c.

Fixpoint any (p : Ascii.ascii -> bool) (s : string) : bool :=
  match s with
  | EmptyString => false
  | String c rest => p c || any p rest
  end.

(** [/[A-Z]/], [/[0-9]/] and [/[^A-Za-z0-9]/] on one character. *)
Definition upper (c : Ascii.ascii) : bool := (65 <=? code c)%N && (code c <=? 90)%N.
Definition lower (c : Ascii.ascii) : bool := (97 <=? code c)%N && (code c <=? 122)%N.
Definition digit (c : Ascii.ascii) : bool := (48 <=? code c)%N && (code c <=? 57)%N.
Definition other (c : Ascii.ascii) : bool := negb (upper c || lower c || digit c).

Record Strength : Type := mkStrength {
  level : nat;
  label : string;
  color : string
}.

Definition point (b : bool) : nat := if b then 1 else 0.

(** The [score] of [getPasswordStrength]. *)
Definition score (pwd : string) : nat :=
  point (6 <=? String.length pwd)%nat
  + point (10 <=? String.length pwd)%nat
  + point (any upper pwd)
  + point (any digit pwd)
  + point (any other pwd).

Definition getPasswordStrength (pwd : string) : Strength :=
  if negb (truthy pwd) || (String.length pwd <? 4)%nat then mkStrength 0 "" ""
  else if (score pwd <=? 2)%nat then mkStrength 1 "Weak" "#ef4444"
  else if (score pwd <=? 3)%nat then mkStrength 2 "Medium" "#f59e0b"
  else mkStrength 3 "Strong" "#22c55e".

(** [hex.slice(0, 12) + "..." + hex.slice(-10)] for a long text. *)
Definition truncateHex (hex : string) : string :=
  if (String.length hex <=? 24)%nat then hex
  else String.substring 0 12 hex +:+ "..."
       +:+ String.substring (String.length hex - 10) 10 hex.

(** White space for [trim()], among the code units below 256. *)
Definition space (c : Ascii.ascii) : bool :=
  existsb (N.eqb (code c)) [9; 10; 11; 12; 13; 32; 160]%N.

(** [!s.trim()] *)
Fixpoint blank (s : string) : bool :=
  match s with
  | EmptyString => true
  | String c rest => space c && blank rest
  end.

Definition MAX_MESSAGE_LENGTH : nat := 500.

(** The state [handleSend] reads and writes. *)
Record Form : Type := mkForm {
  messageInput : string;
  password : string;
  sendError : option string;
  isSending : bool;
  isDecrypting : bool
}.

(** [handleSend]; [sendMessage] is the hook's, on the hook's state. *)
Definition handleSend
    (sendMessage : string -> string -> World -> World * outcome unit)
    (f : Form) (w : World) : Form * World :=
  if isSending f then (f, w)
  else if blank (messageInput f) || blank (password f) then
    (mkForm (messageInput f) (password f)
       (Some "Please enter both message and password")
       (isSending f) (isDecrypting f), w)
  else if (MAX_MESSAGE_LENGTH <? String.length (messageInput f))%nat then
    (mkForm (messageInput f) (password f)
       (Some "Message too long. Maximum 500 characters allowed.")
       (isSending f) (isDecrypting f), w)
  else
    match sendMessage (messageInput f) (password f) w with
    | (w, Returned _) => (mkForm "" (password f) None false (isDecrypting f), w)
    | (w, Threw err) =>
        (mkForm (messageInput f) (password f)
           (Some (messageOr "Failed to send" err)) false (isDecrypting f), w)
    end.

(** [handleDecryptAll]; [decryptAllMessages] is the hook's. *)
Definition handleDecryptAll
    (decryptAllMessages : string -> World -> World * outcome unit)
    (f : Form) (w : World) : Form * World :=
  if blank (password f) then
    (mkForm (messageInput f) (password f)
       (Some "Please enter password to decrypt") (isSending f) (isDecrypting f), w)
  else
    match decryptAllMessages (password f) w with
    | (w, Returned _) =>
        (mkForm (messageInput f) (password f) None (isSending f) false, w)
    | (w, Threw err) =>
        (mkForm (messageInput f) (password f)
           (Some (messageOr "Failed to decrypt" err)) (isSending f) false, w)
    end.

End WhisperChat.

(** ** Sample inputs of the client *)

Module ClientSamples.
Import Hook Client.

Open Scope string_scope.

Definition local_vault : string := "0x5FbDB2315678afecb367f032d93F642f64180aa3".

(** A deployment file with a local deployment and a placeholder entry. *)
Definition deployments_file : gmap string Deployments.Deployment :=
  {[ "31337" := Deployments.mkDeployment local_vault 31337 "localhost";
     "11155111" := Deployments.mkDeployment Deployments.ZeroAddress 11155111 "sepolia" ]}.

(** A stand-in for [encryptText], the counterpart of
    [Samples.sample_decryptText]: the payload is the password followed by
    the text, whatever the draw. *)
Definition sample_encryptText (draw : unit) (text password : string) : outcome string :=
  Returned (password +:+ text).

(** A contract whose transactions are rejected in the wallet. *)
Definition rejecting_signer : Signer :=
  mkSigner Samples.unreachable_contract
    (λ _, Threw (JsError "user rejected")) (λ _, Threw (JsError "user rejected"))
    (Threw (JsError "user rejected")).

(** What the chain holds for [Samples.wallet], and a contract that reads it. *)
Definition chain_records : list ChainMessage :=
  [ mkChainMessage "" Samples.wallet "0xaa" 11 false;
    mkChainMessage "" "0xV" "0xbb" 12 true ].

Definition local_chain : Contract :=
  mkContract (λ _, Returned chain_records) (Returned tt).

(** The hook after one message was loaded, nothing cached. *)
Definition one_message : World :=
  mkWorld [Samples.hello] false None ∅.

(** What [sendMessage] leaves in demo mode, sent from [one_message]. *)
Definition after_send : World :=
  fst (sendMessage unit sample_encryptText JSON.parse Stringify.stringify
         (Returned None) (Some Samples.wallet) (Returned None) 200
         tt tt "hi" "pw:" one_message).

End ClientSamples.

Module ChatSamples.

Open Scope string_scope.

(** A message and a password typed into the form. *)
Definition typed : WhisperChat.Form :=
  WhisperChat.mkForm "hi" "pw:" None false false.

End ChatSamples.
(** * Properties of the contract *)

Module VaultFacts.
Import WhisperVault.

(** ** Storage lemmas *)

Lemma messagesOf_initial user : messagesOf initial user = [].
Proof. unfold messagesOf, initial. cbn. by rewrite lookup_empty. Qed.

Lemma messagesOf_push_eq user m s :
  messagesOf (push user m s) user = messagesOf s user ++ [m].
Proof. unfold messagesOf at 1, push. cbn. by rewrite lookup_insert_eq. Qed.

Lemma messagesOf_push_ne user other m s :
  user ≠ other -> messagesOf (push user m s) other = messagesOf s other.
Proof. intros Hne. unfold messagesOf, push. cbn. by rewrite lookup_insert_ne. Qed.

Lemma messagesOf_delete_eq user s : messagesOf (delete_messages user s) user = [].
Proof. unfold messagesOf, delete_messages. cbn. by rewrite lookup_delete_eq. Qed.

Lemma messagesOf_delete_ne user other s :
  user ≠ other -> messagesOf (delete_messages user s) other = messagesOf s other.
Proof.
  intros Hne. unfold messagesOf, delete_messages. cbn. by rewrite lookup_delete_ne.
Qed.

Lemma len_nil {A : Type} : len (@nil A) = 0.
Proof. reflexivity. Qed.

Lemma len_app_one {A : Type} (l : list A) (x : A) : len (l ++ [x]) = len l + 1.
Proof. unfold len. rewrite length_app. cbn. lia. Qed.

Lemma len_zero_nil {A : Type} (l : list A) : len l = 0 -> l = [].
Proof. destruct l; [done | unfold len; cbn; lia]. Qed.

(** In range, the compiler's bounds check never fires. *)
Lemma at_index_in_range s user index :
  index < len (messagesOf s user) ->
  ∃ m, messagesOf s user !! N.to_nat index = Some m ∧ at_index s user index = Ok m.
Proof.
  intros Hlt. unfold at_index.
  destruct (messagesOf s user !! N.to_nat index) as [m|] eqn:Hm.
  - by exists m.
  - apply lookup_ge_None in Hm. unfold len in Hlt. lia.
Qed.

(** ** What the two append operations do *)

Lemma storeMessage_ok e content s s' evs :
  storeMessage e content s = Ok (s', evs) ->
  s' = push (this e) (userRecord e content) s.
Proof.
  unfold storeMessage, bind, require, checked_sub.
  repeat case_match; intros; by simplify_eq.
Qed.

Lemma storeResponse_ok e content s s' evs :
  storeResponse e content s = Ok (s', evs) ->
  s' = push (this e) (responseRecord e content) s.
Proof.
  unfold storeResponse, bind, require, checked_sub.
  repeat case_match; intros; by simplify_eq.
Qed.

(** Whatever the call, storage changes by at most one push onto the
    contract's own key or one delete of the sender's key. *)
Lemma after_cases c e s :
  after c e s = s
  ∨ (∃ m, label m = "" ∧ after c e s = push (this e) m s)
  ∨ after c e s = delete_messages (msg_sender e) s.
Proof.
  unfold after. destruct c as [content|content| |]; cbn.
  - destruct (storeMessage e content s) as [[s' evs]|f] eqn:Hrun; [|by left].
    right; left. exists (userRecord e content). split; [done|].
    by eapply storeMessage_ok.
  - destruct (storeResponse e content s) as [[s' evs]|f] eqn:Hrun; [|by left].
    right; left. exists (responseRecord e content). split; [done|].
    by eapply storeResponse_ok.
  - by right; right.
  - by left.
Qed.

(** Only the contract's own key is ever written: the list of every other
    address is empty in every reachable state. *)
Lemma only_vault_key_written vault s :
  reachable vault s -> ∀ user, user ≠ vault -> messagesOf s user = [].
Proof.
  induction 1 as [|s c from now Hreach IH]; intros user Hne.
  - apply messagesOf_initial.
  - destruct (after_cases c (mkEnv vault from now) s) as [-> | [(m & _ & ->) | ->]]; cbn.
    + by apply IH.
    + rewrite messagesOf_push_ne; [by apply IH | done].
    + destruct (decide (from = user)) as [-> | Hother].
      * apply messagesOf_delete_eq.
      * rewrite messagesOf_delete_ne; [by apply IH | done].
Qed.

(** When an append goes through: the payload has a valid length, and the
    index subtraction finds a record under the sender's key, either the
    one just pushed (the sender is the contract) or one already there. *)
Lemma index_underflows e m s :
  is_revert (checked_sub (len (messagesOf (push (this e) m s) (msg_sender e))) 1)
  = bool_decide (msg_sender e ≠ this e ∧ messagesOf s (msg_sender e) = []).
Proof.
  unfold checked_sub. destruct (decide (this e = msg_sender e)) as [Heq | Hne].
  - rewrite <- Heq, messagesOf_push_eq, len_app_one.
    destruct (N.ltb_spec (len (messagesOf s (this e)) + 1) 1); [lia|].
    cbn. symmetry. apply bool_decide_eq_false. by intros [Hne _].
  - rewrite messagesOf_push_ne; [|done].
    destruct (messagesOf s (msg_sender e)) as [|m0 l] eqn:Hl.
    + cbn. symmetry. apply bool_decide_eq_true. by split.
    + destruct (N.ltb_spec (len (m0 :: l)) 1) as [Hlt|]; [unfold len in Hlt; cbn in Hlt; lia|].
      cbn. symmetry. apply bool_decide_eq_false. by intros [_ Hnil].
Qed.

Lemma storeMessage_succeeds_iff e (content : list Byte.byte) s :
  is_revert (storeMessage e content s) = false
  ↔ 1 <= len content <= 16384
    ∧ (msg_sender e = this e ∨ messagesOf s (msg_sender e) ≠ []).
Proof.
  pose proof (index_underflows e (userRecord e content) s) as Hidx.
  unfold storeMessage, bind, require. unfold userRecord in Hidx.
  destruct (N.ltb_spec 0 (len content)); [|cbn; split; [done | lia]].
  destruct (N.leb_spec (len content) 16384); [|cbn; split; [done | lia]].
  cbv zeta. destruct (checked_sub _ 1) eqn:Hsub; cbn in *.
  - symmetry in Hidx. apply bool_decide_eq_false in Hidx.
    split; [|done]. intros _. split; [lia|].
    destruct (decide (msg_sender e = this e)) as [|Hne]; [by left | right].
    intros Hnil. by apply Hidx.
  - symmetry in Hidx. apply bool_decide_eq_true in Hidx as [Hne Hnil].
    split; [done|]. by intros [_ [Heq | Hcons]].
Qed.

Lemma storeResponse_succeeds_iff e (content : list Byte.byte) s :
  is_revert (storeResponse e content s) = false
  ↔ 1 <= len content <= 16384
    ∧ (msg_sender e = this e ∨ messagesOf s (msg_sender e) ≠ []).
Proof.
  pose proof (index_underflows e (responseRecord e content) s) as Hidx.
  unfold storeResponse, bind, require. unfold responseRecord in Hidx.
  destruct (N.ltb_spec 0 (len content)); [|cbn; split; [done | lia]].
  destruct (N.leb_spec (len content) 16384); [|cbn; split; [done | lia]].
  cbv zeta. destruct (checked_sub _ 1) eqn:Hsub; cbn in *.
  - symmetry in Hidx. apply bool_decide_eq_false in Hidx.
    split; [|done]. intros _. split; [lia|].
    destruct (decide (msg_sender e = this e)) as [|Hne]; [by left | right].
    intros Hnil. by apply Hidx.
  - symmetry in Hidx. apply bool_decide_eq_true in Hidx as [Hne Hnil].
    split; [done|]. by intros [_ [Heq | Hcons]].
Qed.

(** No append sent by anyone but the contract itself ever goes through. *)
Lemma external_store_reverts vault from now (content : list Byte.byte) s :
  reachable vault s -> from ≠ vault ->
  is_revert (storeMessage (mkEnv vault from now) content s) = true
  ∧ is_revert (storeResponse (mkEnv vault from now) content s) = true.
Proof.
  intros Hreach Hne.
  pose proof (only_vault_key_written vault s Hreach from Hne) as Hempty.
  split; apply not_false_iff_true.
  - rewrite storeMessage_succeeds_iff. cbn. by intros [_ [Heq | Hcons]].
  - rewrite storeResponse_succeeds_iff. cbn. by intros [_ [Heq | Hcons]].
Qed.

(** ** The length checks *)

(** C3: [storeMessage] and [storeResponse] revert with "Empty message" on
    an empty payload and with "Message too large" on a payload of more than
    16384 bytes; on a payload of 1 to 16384 bytes neither [require] fails,
    so whatever the call then does, it is not a revert with a reason
    string. *)
Theorem store_length_checks e (content : list Byte.byte) s :
  (len content = 0 ->
     storeMessage e content s = Revert (Error "Empty message")
     ∧ storeResponse e content s = Revert (Error "Empty message"))
  ∧ (16384 < len content ->
     storeMessage e content s = Revert (Error "Message too large")
     ∧ storeResponse e content s = Revert (Error "Message too large"))
  ∧ (1 <= len content <= 16384 ->
     ∀ reason, storeMessage e content s ≠ Revert (Error reason)
               ∧ storeResponse e content s ≠ Revert (Error reason)).
Proof.
  unfold storeMessage, storeResponse, bind, require, checked_sub.
  split; [|split].
  - intros ->. by cbn.
  - intros Hbig.
    destruct (N.ltb_spec 0 (len content)); [|lia].
    destruct (N.leb_spec (len content) 16384); [lia|done].
  - intros [Hlo Hhi] reason.
    destruct (N.ltb_spec 0 (len content)); [|lia].
    destruct (N.leb_spec (len content) 16384); [|lia].
    split; cbv zeta; by destruct (_ <? 1).
Qed.

Lemma store_length_checks_witness :
  storeMessage (mkEnv vault alice 1) [] initial = Revert (Error "Empty message")
  ∧ storeMessage (mkEnv vault alice 1) oversized initial
    = Revert (Error "Message too large")
  ∧ storeMessage (mkEnv vault alice 1) one_byte initial
    ≠ Revert (Error "Empty message").
Proof.
  pose proof (store_length_checks (mkEnv vault alice 1) [] initial) as (H0 & _ & _).
  pose proof (store_length_checks (mkEnv vault alice 1) oversized initial) as (_ & H1 & _).
  pose proof (store_length_checks (mkEnv vault alice 1) one_byte initial) as (_ & _ & H2).
  split; [|split].
  - apply H0. reflexivity.
  - apply H1. vm_compute. reflexivity.
  - apply H2. vm_compute. split; discriminate.
Defined.

(** ** The index that is never there *)

(** C2: a sender other than the contract whose own list is empty cannot
    store anything.  Both append operations revert for it on every payload:
    on an empty or oversized one by the length checks, on a valid one with
    the arithmetic panic of [_userMessages[msg.sender].length - 1], because
    the push went to the contract's own key.  And the list of such a sender
    is empty in every reachable state. *)
Theorem store_reverts_for_empty_sender vault from now (content : list Byte.byte) s :
  from ≠ vault ->
  (reachable vault s -> messagesOf s from = [])
  ∧ (messagesOf s from = [] ->
     is_revert (storeMessage (mkEnv vault from now) content s) = true
     ∧ is_revert (storeResponse (mkEnv vault from now) content s) = true
     ∧ (1 <= len content <= 16384 ->
        storeMessage (mkEnv vault from now) content s
          = Revert (Panic PANIC_ARITHMETIC)
        ∧ storeResponse (mkEnv vault from now) content s
          = Revert (Panic PANIC_ARITHMETIC))).
Proof.
  intros Hne. split.
  - intros Hreach. by apply only_vault_key_written with (vault := vault).
  - intros Hempty.
    assert (∀ m, checked_sub (len (messagesOf (push vault m s) from)) 1
                 = Revert (Panic PANIC_ARITHMETIC)) as Hsub.
    { intros m. rewrite messagesOf_push_ne; [|done]. by rewrite Hempty. }
    unfold storeMessage, storeResponse, bind, require. cbn [this msg_sender].
    destruct (N.ltb_spec 0 (len content)); [|by split_and!; [done|done|lia]].
    destruct (N.leb_spec (len content) 16384); [|by split_and!; [done|done|lia]].
    rewrite !Hsub. by split_and!.
Qed.

Lemma store_reverts_for_empty_sender_witness :
  messagesOf initial alice = []
  ∧ storeMessage (mkEnv vault alice 1) one_byte initial
    = Revert (Panic PANIC_ARITHMETIC)
  ∧ storeResponse (mkEnv vault alice 1) one_byte initial
    = Revert (Panic PANIC_ARITHMETIC).
Proof.
  assert (alice ≠ vault) as Hne by (vm_compute; discriminate).
  pose proof (store_reverts_for_empty_sender vault alice 1 one_byte initial Hne)
    as (Hempty & Hrev).
  specialize (Hempty (reachable_initial vault)).
  destruct (Hrev Hempty) as (_ & _ & Hpanic).
  split; [exact Hempty|].
  apply Hpanic. vm_compute. split; discriminate.
Defined.

(** ** Where the appended record goes *)

(** A successful append extends the list under the contract's own address
    by one record with an empty label, and touches no other list. *)
Lemma append_lands_on_vault e (content : list Byte.byte) s s' evs :
  storeMessage e content s = Ok (s', evs) ∨ storeResponse e content s = Ok (s', evs) ->
  ∃ m, label m = "" ∧ encryptedContent m = content
       ∧ messagesOf s' (this e) = messagesOf s (this e) ++ [m]
       ∧ ∀ other, other ≠ this e -> messagesOf s' other = messagesOf s other.
Proof.
  intros [Hrun | Hrun].
  - apply storeMessage_ok in Hrun as ->. exists (userRecord e content).
    split_and!; [done | done | apply messagesOf_push_eq |].
    intros other Hne. by apply messagesOf_push_ne.
  - apply storeResponse_ok in Hrun as ->. exists (responseRecord e content).
    split_and!; [done | done | apply messagesOf_push_eq |].
    intros other Hne. by apply messagesOf_push_ne.
Qed.

(** The count of an address other than the contract never leaves zero. *)
Lemma sender_count_zero vault s user :
  reachable vault s -> user ≠ vault -> getMessageCount s user = 0.
Proof.
  intros Hreach Hne. unfold getMessageCount.
  by rewrite (only_vault_key_written vault s Hreach user Hne).
Qed.

(** ** Sequences of successful appends *)







(** The calls of the test suite, sent by [alice] to a fresh deployment:
    the first reverts with the arithmetic panic, and after all three her
    count is 0 and index 0 is out of range. *)
Theorem sender_stores_nothing :
  storeMessage alice_env one_byte initial = Revert (Panic PANIC_ARITHMETIC)
  ∧ getMessageCount (after (CallStoreMessage one_byte) alice_env initial) alice = 0
  ∧ getMessageCount after_three_stores alice = 0
  ∧ getMessageMetadata after_three_stores alice 0 = Revert (Error "Vault: Index error").
Proof. by vm_compute. Qed.

(** ** Indexed reads *)

(** C4: each of the three indexed reads reverts exactly when the index is
    at least the user's message count; below it, they return the fields of
    the record stored at that position. *)
Theorem indexed_reads s user index :
  (is_revert (getMessageMetadata s user index) = true
     ↔ getMessageCount s user <= index)
  ∧ (is_revert (getEncryptedContent s user index) = true
     ↔ getMessageCount s user <= index)
  ∧ (is_revert (getMessage s user index) = true
     ↔ getMessageCount s user <= index)
  ∧ (index < getMessageCount s user ->
     ∃ m, getAllMessages s user !! N.to_nat index = Some m
          ∧ getMessageMetadata s user index
            = Ok (sender m, timestamp m, isResponse m)
          ∧ getEncryptedContent s user index = Ok (encryptedContent m)
          ∧ getMessage s user index
            = Ok (sender m, encryptedContent m, timestamp m, isResponse m)).
Proof.
  unfold getMessageMetadata, getEncryptedContent, getMessage, getMessageCount,
    getAllMessages, bind, require.
  destruct (N.ltb_spec index (len (messagesOf s user))) as [Hlt | Hge].
  - destruct (at_index_in_range s user index Hlt) as (m & Hm & ->). cbn.
    split_and!; try (split; [done | lia]).
    intros _. by exists m.
  - cbn. split_and!; try (split; [lia | done]). lia.
Qed.

Lemma indexed_reads_witness :
  getMessage stored alice 1 = Ok (vault, two_bytes, 11, true)
  ∧ is_revert (getMessage stored alice 2) = true.
Proof.
  pose proof (indexed_reads stored alice 1) as (_ & _ & _ & Hin).
  pose proof (indexed_reads stored alice 2) as (_ & _ & Hout & _).
  split.
  - destruct Hin as (m & Hm & _ & _ & ->); [by vm_compute|].
    vm_compute in Hm. by injection Hm as <-.
  - apply Hout. by vm_compute.
Defined.

(** ** Clearing and requesting *)

(** C5: [clearMessages] never reverts; afterwards the sender's list is
    empty and its count is 0, and the list of every other address is what
    it was. *)
Theorem clearMessages_frame e s :
  ∃ s', clearMessages e s = Ok (s', [MessagesCleared (msg_sender e)])
        ∧ getMessageCount s' (msg_sender e) = 0
        ∧ getAllMessages s' (msg_sender e) = []
        ∧ ∀ other, other ≠ msg_sender e ->
                   getAllMessages s' other = getAllMessages s other.
Proof.
  exists (delete_messages (msg_sender e) s).
  unfold getMessageCount, getAllMessages.
  rewrite messagesOf_delete_eq. split_and!; try done.
  intros other Hne. by apply messagesOf_delete_ne.
Qed.

Lemma clearMessages_frame_witness :
  getAllMessages (after CallClearMessages (mkEnv vault alice 20) stored) alice = []
  ∧ getAllMessages (after CallClearMessages (mkEnv vault alice 20) stored) bob
    = getAllMessages stored bob.
Proof.
  destruct (clearMessages_frame (mkEnv vault alice 20) stored)
    as (s' & Hrun & _ & Hmine & Hothers).
  unfold after, run. rewrite Hrun. split; [exact Hmine|].
  apply Hothers. vm_compute. discriminate.
Defined.

(** C6: [requestDecryption] never reverts, emits the one
    [DecryptionRequested] event, and leaves storage, hence the list of
    every address, as it was. *)
Theorem requestDecryption_noop e s :
  is_revert (requestDecryption e s) = false
  ∧ (∃ s', requestDecryption e s
           = Ok (s', [DecryptionRequested (msg_sender e) (block_timestamp e)])
           ∧ ∀ user, getAllMessages s' user = getAllMessages s user)
  ∧ after CallRequestDecryption e s = s.
Proof. split_and!; [done | by exists s | done]. Qed.

(** ** The label *)

(** C10: in every reachable state every stored record, of every address,
    has the empty string as its label. *)
Theorem label_always_empty vault s user :
  reachable vault s -> Forall (λ m, label m = "") (getAllMessages s user).
Proof.
  unfold getAllMessages. intros Hreach. revert user.
  induction Hreach as [|s c from now Hreach IH]; intros user.
  - by rewrite messagesOf_initial.
  - destruct (after_cases c (mkEnv vault from now) s) as [-> | [(m & Hm & ->) | ->]]; cbn.
    + apply IH.
    + destruct (decide (vault = user)) as [<- | Hne].
      * rewrite messagesOf_push_eq. apply Forall_app. split; [apply IH|].
        by apply Forall_singleton.
      * rewrite messagesOf_push_ne; [apply IH | done].
    + destruct (decide (from = user)) as [<- | Hne].
      * by rewrite messagesOf_delete_eq.
      * rewrite messagesOf_delete_ne; [apply IH | done].
Qed.

Lemma label_always_empty_witness :
  length (getAllMessages after_self_store vault) = 1%nat
  ∧ Forall (λ m, label m = "") (getAllMessages after_self_store vault).
Proof.
  split; [by vm_compute|].
  apply (label_always_empty vault after_self_store vault).
  apply reachable_step, reachable_initial.
Defined.

End VaultFacts.

(** * Properties of the hook *)

Module HookFacts.
Import Hook.

Open Scope string_scope.

(** ** Decrypting all messages *)

Section Decrypt.

Variable decryptText : string -> string -> outcome string.
Variable getContract : outcome (option Contract).
Variable password : string.

Lemma decryptOne_rejected msg t :
  decryptText (encryptedContent msg) password = Threw t ->
  decryptOne decryptText password msg = withDecryptedText msg "[Decryption failed]".
Proof. unfold decryptOne. by intros ->. Qed.

Lemma decryptOne_fulfilled msg text :
  decryptText (encryptedContent msg) password = Returned text ->
  decryptOne decryptText password msg = withDecryptedText msg text.
Proof. unfold decryptOne. by intros ->. Qed.

(** The two ways the [try] block can throw; no decryption is among them. *)
Lemma decryptAllMessages_try_cases w :
  (messages w = []
   ∧ decryptAllMessages_try decryptText getContract password w
     = (w, Threw (JsError "No messages to decrypt")))
  ∨ (messages w ≠ [] ∧ ∃ t, getContract = Threw t
     ∧ decryptAllMessages_try decryptText getContract password w = (w, Threw t))
  ∨ (messages w ≠ [] ∧ threw getContract = false
     ∧ decryptAllMessages_try decryptText getContract password w
       = (setMessages (map (decryptOne decryptText password) (messages w)) w,
          Returned tt)).
Proof.
  unfold decryptAllMessages_try.
  destruct (messages w) as [|m ms] eqn:Hms; cbn; [by left | right].
  destruct getContract as [c | t]; [right | left; eauto].
  done.
Qed.

End Decrypt.

(** C7: [decryptAllMessages] throws only when there is nothing to decrypt
    or when [getContract] throws, never because a message fails to
    decrypt.  When it returns, the list has as many messages as before; a
    message whose payload is rejected has "[Decryption failed]" in its
    [decryptedText] field, every other one has its plaintext there, and
    id, sender, payload, time and flag are as they were. *)
Theorem decryption_failures_are_isolated
    (decryptText : string -> string -> outcome string)
    (getContract : outcome (option Contract)) (password : string) (w : World) :
  let r := decryptAllMessages decryptText getContract password w in
  (threw (snd r) = true ↔ messages w = [] ∨ threw getContract = true)
  ∧ (threw (snd r) = false ->
     length (messages (fst r)) = length (messages w)
     ∧ ∀ i msg, messages w !! i = Some msg ->
         (∀ t, decryptText (encryptedContent msg) password = Threw t ->
               messages (fst r) !! i
               = Some (mkMessage (id msg) (sender msg) (encryptedContent msg)
                         (timestamp msg) (isResponse msg)
                         (Some "[Decryption failed]")))
         ∧ (∀ text, decryptText (encryptedContent msg) password = Returned text ->
               messages (fst r) !! i
               = Some (mkMessage (id msg) (sender msg) (encryptedContent msg)
                         (timestamp msg) (isResponse msg) (Some text)))).
Proof.
  cbv zeta. unfold decryptAllMessages.
  assert (messages (setError None (setLoading true w)) = messages w) as Hsame by done.
  destruct (decryptAllMessages_try_cases decryptText getContract password
              (setError None (setLoading true w)))
    as [(Hnil & ->) | [(Hcons & t & Hthrew & ->) | (Hcons & Hok & ->)]];
    rewrite Hsame in *; cbn [fst snd threw].
  - split; [by split; [left|] | done].
  - split; [|done]. split; [|done]. intros _. right. by rewrite Hthrew.
  - split.
    + split; [done|]. intros [Hnil | Hthrew]; [done | congruence].
    + intros _. cbn. split; [by rewrite length_map|].
      intros i msg Hi. rewrite !list_lookup_fmap, Hi. cbn. split.
      * intros t Hrej. by rewrite (decryptOne_rejected _ _ _ t Hrej).
      * intros text Hful. by rewrite (decryptOne_fulfilled _ _ _ text Hful).
Qed.

Lemma decryption_failures_are_isolated_witness :
  let r := decryptAllMessages Samples.sample_decryptText (Returned None) "pw:"
             Samples.three_messages in
  snd r = Returned tt
  ∧ messages (fst r) !! 1%nat
    = Some (mkMessage 1 "system" "zz:garbled" 101 true (Some "[Decryption failed]"))
  ∧ messages (fst r) !! 2%nat
    = Some (mkMessage 2 Samples.wallet "pw:world" 102 false (Some "world")).
Proof.
  cbv zeta.
  pose proof (decryption_failures_are_isolated Samples.sample_decryptText
                (Returned None) "pw:" Samples.three_messages) as (_ & Hrest).
  cbv zeta in Hrest.
  destruct Hrest as (_ & Heach); [by vm_compute|].
  split; [by vm_compute|]. split.
  - exact (proj1 (Heach 1%nat Samples.garbled eq_refl) (JsError "OperationError")
             eq_refl).
  - exact (proj2 (Heach 2%nat Samples.world eq_refl) "world" eq_refl).
Defined.

(** ** Loading from the cache *)

Section Load.

Variable JSON_parse : string -> outcome (list Message).
Variable getContract : outcome (option Contract).
Variables (address stored : string) (w : World).

Hypothesis connected : truthy address = true.
Hypothesis cached : getItem (storageKey address) w = Some stored.
Hypothesis nonempty : truthy stored = true.

Lemma loadMessages_unfold :
  loadMessages JSON_parse getContract (Some address) w
  = (setLoading false
       match loadMessages_try JSON_parse getContract address
               (setError None (setLoading true w)) with
       | (w', Returned _) => w'
       | (w', Threw err) => loadMessages_catch JSON_parse address err w'
       end, Returned tt).
Proof. unfold loadMessages. by rewrite connected. Qed.

(** Demo mode with a cached text that does not parse: the entry is removed
    and the list emptied. *)
Lemma demo_mode_malformed t :
  getContract = Returned None -> JSON_parse stored = Threw t ->
  loadMessages_try JSON_parse getContract address (setError None (setLoading true w))
  = (setMessages [] (removeItem (storageKey address)
                       (setError None (setLoading true w))), Returned tt).
Proof.
  intros Hdemo Hparse. unfold loadMessages_try. rewrite Hdemo.
  change (getItem (storageKey address) (setError None (setLoading true w)))
    with (getItem (storageKey address) w).
  by rewrite cached, nonempty, Hparse.
Qed.

(** The [catch] block with a cached text that does not parse: the list is
    emptied; storage is not written. *)
Lemma catch_malformed err t w' :
  getItem (storageKey address) w' = Some stored -> JSON_parse stored = Threw t ->
  messages (loadMessages_catch JSON_parse address err w') = []
  ∧ localStorage (loadMessages_catch JSON_parse address err w') = localStorage w'.
Proof.
  intros Hcached Hparse. unfold loadMessages_catch.
  destruct (_ || _);
    change (getItem (storageKey address) (setError ?e w'))
      with (getItem (storageKey address) w');
    by rewrite Hcached, nonempty, Hparse.
Qed.

(** When the [try] block throws, it has not changed the React state or
    the storage. *)
Lemma loadMessages_try_threw w0 w' err :
  loadMessages_try JSON_parse getContract address w0 = (w', Threw err) -> w' = w0.
Proof.
  unfold loadMessages_try. intros Hrun.
  repeat case_match; by simplify_eq.
Qed.

(** Demo mode never throws. *)
Lemma demo_mode_returns w0 w' err :
  getContract = Returned None ->
  loadMessages_try JSON_parse getContract address w0 ≠ (w', Threw err).
Proof.
  unfold loadMessages_try. intros -> Hrun.
  repeat case_match; by simplify_eq.
Qed.

(** When the cache is read and the [try] block does not throw, this is
    demo mode. *)
Lemma loadMessages_try_returned w0 w' :
  readsCache getContract address = true ->
  loadMessages_try JSON_parse getContract address w0 = (w', Returned tt) ->
  getContract = Returned None.
Proof.
  unfold readsCache, loadMessages_try. intros Hreads Hrun.
  destruct getContract as [[contract|]|]; [|done|done].
  by destruct (getAllMessages contract address).
Qed.

End Load.

(** C8 (as amended): [loadMessages] reads the cache of a connected wallet
    and finds a non-empty text that [JSON.parse] rejects.  Then it returns
    normally and the message list is empty afterwards; in demo mode the
    cache entry is removed as well. *)
Theorem malformed_cache_is_emptied
    (JSON_parse : string -> outcome (list Message))
    (getContract : outcome (option Contract))
    (address stored : string) (t : Thrown) (w : World) :
  truthy address = true ->
  readsCache getContract address = true ->
  getItem (storageKey address) w = Some stored ->
  truthy stored = true ->
  JSON_parse stored = Threw t ->
  let r := loadMessages JSON_parse getContract (Some address) w in
  snd r = Returned tt
  ∧ messages (fst r) = []
  ∧ (getContract = Returned None ->
     getItem (storageKey address) (fst r) = None).
Proof.
  intros Hconn Hreads Hcached Hnonempty Hparse. cbv zeta.
  rewrite (loadMessages_unfold _ _ _ _ Hconn). cbn [fst snd].
  split; [done|].
  destruct (loadMessages_try JSON_parse getContract address
              (setError None (setLoading true w))) as [w' [[]|err]] eqn:Hrun.
  - pose proof (loadMessages_try_returned _ _ _ _ _ Hreads Hrun) as Hdemo.
    rewrite (demo_mode_malformed _ _ _ _ _ Hcached Hnonempty t Hdemo Hparse) in Hrun.
    injection Hrun as <-. split; [done|]. intros _.
    unfold getItem, removeItem. cbn. apply lookup_delete_eq.
  - split.
    + apply loadMessages_try_threw in Hrun as ->.
      by destruct (catch_malformed JSON_parse address stored Hnonempty err t
                     (setError None (setLoading true w)) Hcached Hparse).
    + intros Hdemo. by destruct (demo_mode_returns _ _ _ _ _ _ Hdemo Hrun).
Qed.

Lemma malformed_cache_is_emptied_witness :
  JSON.parse "{not json" = Threw (JsError "SyntaxError")
  ∧ (let r := loadMessages JSON.parse (Returned None) (Some Samples.wallet)
                Samples.malformed_cache in
     snd r = Returned tt ∧ messages (fst r) = []
     ∧ getItem (storageKey Samples.wallet) (fst r) = None)
  ∧ (let r := loadMessages JSON.parse (Returned (Some Samples.unreachable_contract))
                (Some Samples.wallet) Samples.malformed_cache in
     snd r = Returned tt ∧ messages (fst r) = []).
Proof.
  assert (JSON.parse "{not json" = Threw (JsError "SyntaxError")) as Hparse
    by (by vm_compute).
  pose proof (malformed_cache_is_emptied JSON.parse (Returned None) Samples.wallet
                "{not json" (JsError "SyntaxError") Samples.malformed_cache
                ltac:(by vm_compute) ltac:(by vm_compute) ltac:(by vm_compute)
                ltac:(by vm_compute) Hparse) as (Hret & Hempty & Hgone).
  pose proof (malformed_cache_is_emptied JSON.parse
                (Returned (Some Samples.unreachable_contract)) Samples.wallet
                "{not json" (JsError "SyntaxError") Samples.malformed_cache
                ltac:(by vm_compute) ltac:(by vm_compute) ltac:(by vm_compute)
                ltac:(by vm_compute) Hparse) as (Hret' & Hempty' & _).
  split; [exact Hparse|]. split; cbv zeta.
  - split; [exact Hret|]. split; [exact Hempty|]. by apply Hgone.
  - split; [exact Hret' | exact Hempty'].
Defined.

(** C8 (as stated) fails on the empty string: [JSON.parse] rejects it, yet
    the guard [if (stored)] skips it, so the message list keeps what it
    held and the entry stays in the cache. *)
Lemma empty_cache_entry_is_kept :
  threw (JSON.parse "") = true
  ∧ getItem (storageKey Samples.wallet) Samples.empty_cache = Some ""
  ∧ (let r := loadMessages JSON.parse (Returned None) (Some Samples.wallet)
                Samples.empty_cache in
     messages (fst r) = [Samples.hello]
     ∧ messages (fst r) ≠ []
     ∧ getItem (storageKey Samples.wallet) (fst r) = Some "").
Proof. by vm_compute. Qed.

(** The [catch] block, unlike the demo-mode branch, has no [removeItem]:
    after a failed contract read the text that does not parse is still in
    the cache. *)
Lemma fallback_keeps_entry
    (JSON_parse : string -> outcome (list Message))
    (getContract : outcome (option Contract))
    (address stored : string) (t : Thrown) (w : World) :
  truthy address = true ->
  readsCache getContract address = true ->
  getContract ≠ Returned None ->
  getItem (storageKey address) w = Some stored ->
  truthy stored = true ->
  JSON_parse stored = Threw t ->
  getItem (storageKey address)
    (fst (loadMessages JSON_parse getContract (Some address) w)) = Some stored.
Proof.
  intros Hconn Hreads Hchain Hcached Hnonempty Hparse.
  rewrite (loadMessages_unfold _ _ _ _ Hconn). cbn [fst].
  destruct (loadMessages_try JSON_parse getContract address
              (setError None (setLoading true w))) as [w' [[]|err]] eqn:Hrun.
  - by destruct Hchain; eapply loadMessages_try_returned.
  - apply loadMessages_try_threw in Hrun as ->.
    destruct (catch_malformed JSON_parse address stored Hnonempty err t
                (setError None (setLoading true w)) Hcached Hparse) as [_ Hls].
    unfold getItem in *. cbn. by rewrite Hls.
Qed.

Example fallback_keeps_entry_sample :
  getItem (storageKey Samples.wallet)
    (fst (loadMessages JSON.parse (Returned (Some Samples.unreachable_contract))
            (Some Samples.wallet) Samples.malformed_cache))
  = Some "{not json".
Proof. by vm_compute. Qed.

End HookFacts.

(** * Properties of the codec *)

Module CodecFacts.
Import Codec.

Section RoundTrip.

Variable key : Type.
Variable deriveKey : string -> list Byte.byte -> key.
Variable seal : key -> list Byte.byte -> list Byte.byte -> list Byte.byte.
Variable unseal : key -> list Byte.byte -> list Byte.byte -> option (list Byte.byte).
Variables SALT_LENGTH IV_LENGTH : nat.

Variables salt iv : list Byte.byte.
Hypothesis salt_length : length salt = SALT_LENGTH.
Hypothesis iv_length : length iv = IV_LENGTH.

(** Whatever the ciphertext, the payload splits back into the three parts
    it was built from. *)
Lemma payload_splits (ciphertext : list Byte.byte) :
  let payload := salt ++ iv ++ ciphertext in
  take SALT_LENGTH payload = salt
  ∧ take IV_LENGTH (drop SALT_LENGTH payload) = iv
  ∧ drop (SALT_LENGTH + IV_LENGTH) payload = ciphertext
  ∧ (length payload <? SALT_LENGTH + IV_LENGTH)%nat = false.
Proof.
  cbv zeta. subst SALT_LENGTH IV_LENGTH. split_and!.
  - by rewrite take_app_length.
  - by rewrite drop_app_length, take_app_length.
  - by rewrite <- drop_drop, drop_app_length, drop_app_length.
  - apply Nat.ltb_ge. rewrite !length_app. lia.
Qed.

End RoundTrip.

(** C9: for every text and every password, whatever salt and vector of
    the fixed lengths were drawn, decrypting the payload of [encryptText]
    with the same password gives the text back.  The cipher is assumed
    correct: unsealing what was sealed under the same key and vector
    succeeds with the plaintext. *)
Theorem decrypt_encrypt
    (key : Type)
    (deriveKey : string -> list Byte.byte -> key)
    (seal : key -> list Byte.byte -> list Byte.byte -> list Byte.byte)
    (unseal : key -> list Byte.byte -> list Byte.byte -> option (list Byte.byte))
    (SALT_LENGTH IV_LENGTH : nat)
    (salt iv : list Byte.byte) (plaintext password : string) :
  (∀ k v p, unseal k v (seal k v p) = Some p) ->
  length salt = SALT_LENGTH ->
  length iv = IV_LENGTH ->
  decryptText key deriveKey unseal SALT_LENGTH IV_LENGTH
    (encryptText key deriveKey seal salt iv plaintext password) password
  = Some plaintext.
Proof.
  intros Hcipher Hsalt Hiv. unfold decryptText, encryptText.
  destruct (payload_splits SALT_LENGTH IV_LENGTH salt iv Hsalt Hiv
              (seal (deriveKey password salt) iv (String.list_byte_of_string plaintext)))
    as (-> & -> & -> & ->).
  rewrite Hcipher. cbn. by rewrite String.string_of_list_byte_of_string.
Qed.

(** The small instance is a correct cipher. *)
Lemma toy_unseal_seal k v p : toy_unseal k v (toy_seal k v p) = Some p.
Proof.
  unfold toy_unseal, toy_seal.
  rewrite take_app_length, drop_app_length. by rewrite decide_True.
Qed.

Lemma decrypt_encrypt_witness :
  decryptText (list Byte.byte) toy_deriveKey toy_unseal 4 3
    (encryptText (list Byte.byte) toy_deriveKey toy_seal sample_salt sample_iv
       "hello" "secret") "secret"
  = Some "hello"%string.
Proof.
  apply (decrypt_encrypt (list Byte.byte) toy_deriveKey toy_seal toy_unseal 4 3
           sample_salt sample_iv "hello" "secret" toy_unseal_seal);
    reflexivity.
Defined.

End CodecFacts.

(** * Further properties of the contract *)

Module VaultMore.
Import WhisperVault VaultFacts.

(** ** Appending *)

(** X1: an append goes through exactly when the payload has 1 to 16384
    bytes and the subtraction for the event index finds a record under the
    sender's key: the sender is the contract itself, or already has a
    stored record.  The same condition holds for both append functions. *)
Theorem store_succeeds_exactly_when e (content : list Byte.byte) s :
  (is_revert (storeMessage e content s) = false
   ↔ 1 <= len content <= 16384
     ∧ (msg_sender e = this e ∨ getMessageCount s (msg_sender e) ≠ 0))
  ∧ (is_revert (storeResponse e content s) = false
     ↔ is_revert (storeMessage e content s) = false).
Proof.
  assert (getMessageCount s (msg_sender e) ≠ 0 ↔ messagesOf s (msg_sender e) ≠ [])
    as Hcount.
  { unfold getMessageCount. split.
    - intros Hlen Hnil. by rewrite Hnil in Hlen.
    - intros Hcons Hlen. by apply Hcons, len_zero_nil. }
  rewrite storeMessage_succeeds_iff, storeResponse_succeeds_iff, Hcount. done.
Qed.

(** The event a successful append emits carries the last index of the
    sender's own list, not the position of the new record. *)
Lemma store_event_index e m s n :
  checked_sub (len (messagesOf (push (this e) m s) (msg_sender e))) 1 = Ok n ->
  n = getMessageCount (push (this e) m s) (msg_sender e) - 1.
Proof.
  unfold checked_sub, getMessageCount. case_match; intros; by simplify_eq.
Qed.

(** X2: a successful [storeMessage] appends one record to the list kept
    under the contract's own address: empty label, the sender, the payload,
    the block time, not a response.  Every other list is unchanged, and the
    one event emitted names the sender, the last index of the sender's own
    list, the block time and the payload size. *)
Theorem storeMessage_effect e (content : list Byte.byte) s s' evs :
  storeMessage e content s = Ok (s', evs) ->
  getAllMessages s' (this e)
  = getAllMessages s (this e)
    ++ [mkMessage "" (msg_sender e) content (block_timestamp e) false]
  ∧ (∀ other, other ≠ this e -> getAllMessages s' other = getAllMessages s other)
  ∧ evs = [MessageStored (msg_sender e) (getMessageCount s' (msg_sender e) - 1)
             (block_timestamp e) false (len content)].
Proof.
  intros Hrun. pose proof (storeMessage_ok _ _ _ _ _ Hrun) as ->.
  unfold getAllMessages. split_and!.
  - apply messagesOf_push_eq.
  - intros other Hne. by apply messagesOf_push_ne.
  - revert Hrun. unfold storeMessage, bind, require.
    repeat case_match; try done. cbv zeta.
    destruct (checked_sub _ 1) as [n|] eqn:Hsub; [|done].
    apply store_event_index in Hsub as ->. intros; by simplify_eq.
Qed.

Lemma storeMessage_effect_witness :
  ∃ s', storeMessage (mkEnv vault alice 20) two_bytes stored
        = Ok (s', [MessageStored alice 1 20 false 2])
        ∧ getAllMessages s' vault = [mkMessage "" alice two_bytes 20 false]
        ∧ getAllMessages s' alice = getAllMessages stored alice.
Proof.
  destruct (storeMessage (mkEnv vault alice 20) two_bytes stored)
    as [[s' evs]|] eqn:Hrun; [|by vm_compute in Hrun].
  exists s'.
  destruct (storeMessage_effect _ _ _ _ _ Hrun) as (Hmine & Hothers & Hevs).
  split_and!.
  - rewrite Hevs. vm_compute in Hrun. injection Hrun as <- _. by vm_compute.
  - exact Hmine.
  - apply Hothers. by vm_compute.
Defined.

(** X3: a successful [storeResponse] appends one record to the list kept
    under the contract's own address: empty label, the contract as sender,
    the payload, the block time, marked as a response.  Every other list is
    unchanged, and the event names the caller and the last index of the
    caller's own list. *)
Theorem storeResponse_effect e (content : list Byte.byte) s s' evs :
  storeResponse e content s = Ok (s', evs) ->
  getAllMessages s' (this e)
  = getAllMessages s (this e)
    ++ [mkMessage "" (this e) content (block_timestamp e) true]
  ∧ (∀ other, other ≠ this e -> getAllMessages s' other = getAllMessages s other)
  ∧ evs = [MessageStored (msg_sender e) (getMessageCount s' (msg_sender e) - 1)
             (block_timestamp e) true (len content)].
Proof.
  intros Hrun. pose proof (storeResponse_ok _ _ _ _ _ Hrun) as ->.
  unfold getAllMessages. split_and!.
  - apply messagesOf_push_eq.
  - intros other Hne. by apply messagesOf_push_ne.
  - revert Hrun. unfold storeResponse, bind, require.
    repeat case_match; try done. cbv zeta.
    destruct (checked_sub _ 1) as [n|] eqn:Hsub; [|done].
    apply store_event_index in Hsub as ->. intros; by simplify_eq.
Qed.

Lemma storeResponse_effect_witness :
  ∃ s', storeResponse (mkEnv vault bob 21) one_byte stored
        = Ok (s', [MessageStored bob 0 21 true 1])
        ∧ getAllMessages s' vault = [mkMessage "" vault one_byte 21 true]
        ∧ getAllMessages s' bob = getAllMessages stored bob.
Proof.
  destruct (storeResponse (mkEnv vault bob 21) one_byte stored)
    as [[s' evs]|] eqn:Hrun; [|by vm_compute in Hrun].
  exists s'.
  destruct (storeResponse_effect _ _ _ _ _ Hrun) as (Hmine & Hothers & Hevs).
  split_and!.
  - rewrite Hevs. vm_compute in Hrun. injection Hrun as <- _. by vm_compute.
  - exact Hmine.
  - apply Hothers. by vm_compute.
Defined.

(** ** Reading back *)

Lemma read_last s user m :
  at_index (push user m s) user (getMessageCount s user) = Ok m
  ∧ (getMessageCount s user <? len (messagesOf (push user m s) user)) = true.
Proof.
  unfold at_index, getMessageCount, len. rewrite messagesOf_push_eq. split.
  - rewrite Nat2N.id, lookup_app_r, Nat.sub_diag; done.
  - apply N.ltb_lt. rewrite length_app. cbn. lia.
Qed.

(** X4: what an append stored can be read back.  After a successful
    [storeMessage] or [storeResponse], the record sits under the contract's
    address at the index that was its count before, with the payload
    unchanged; [getMessage] and [getEncryptedContent] return it, and the
    contract's count has grown by one. *)
Theorem store_then_read e (content : list Byte.byte) s s' evs :
  storeMessage e content s = Ok (s', evs) ∨ storeResponse e content s = Ok (s', evs) ->
  getEncryptedContent s' (this e) (getMessageCount s (this e)) = Ok content
  ∧ (∃ from response,
       getMessage s' (this e) (getMessageCount s (this e))
       = Ok (from, content, block_timestamp e, response))
  ∧ getMessageCount s' (this e) = getMessageCount s (this e) + 1.
Proof.
  intros Hrun.
  assert (∃ m, s' = push (this e) m s ∧ encryptedContent m = content
               ∧ timestamp m = block_timestamp e) as (m & -> & Hcontent & Htime).
  { destruct Hrun as [Hrun | Hrun].
    - exists (userRecord e content). by rewrite (storeMessage_ok _ _ _ _ _ Hrun).
    - exists (responseRecord e content). by rewrite (storeResponse_ok _ _ _ _ _ Hrun). }
  destruct (read_last s (this e) m) as [Hat Hlt].
  unfold getEncryptedContent, getMessage, bind, require.
  rewrite Hlt, Hat, Hcontent, Htime. split_and!; [done | by eauto |].
  unfold getMessageCount. by rewrite messagesOf_push_eq, len_app_one.
Qed.

Lemma store_then_read_witness :
  getEncryptedContent after_self_store vault 0 = Ok one_byte
  ∧ getMessageCount after_self_store vault = 1.
Proof.
  destruct (storeMessage (mkEnv vault vault 7) one_byte initial)
    as [[s' evs]|] eqn:Hrun; [|by vm_compute in Hrun].
  destruct (store_then_read _ _ _ _ _ (or_introl Hrun)) as (Hread & _ & Hcount).
  unfold after_self_store, after, run. rewrite Hrun. cbn [this] in *.
  split; [exact Hread | exact Hcount].
Defined.

(** ** Reads *)

(** X5: an indexed read fails in one way only: with the reason
    "Vault: Index error".  The array access behind the [require] never
    panics. *)
Theorem read_failure_reason s user index f :
  getMessageMetadata s user index = Revert f
  ∨ getEncryptedContent s user index = Revert f
  ∨ getMessage s user index = Revert f ->
  f = Error "Vault: Index error" ∧ getMessageCount s user <= index.
Proof.
  unfold getMessageMetadata, getEncryptedContent, getMessage, getMessageCount,
    bind, require.
  destruct (N.ltb_spec index (len (messagesOf s user))) as [Hlt | Hge].
  - destruct (at_index_in_range s user index Hlt) as (m & _ & ->).
    by intros [? | [? | ?]].
  - cbn. intros [? | [? | ?]]; by simplify_eq.
Qed.

Lemma read_failure_reason_witness :
  getMessage stored bob 1 = Revert (Error "Vault: Index error").
Proof.
  destruct (getMessage stored bob 1) as [r|f] eqn:Hread; [by vm_compute in Hread|].
  by destruct (read_failure_reason stored bob 1 f (or_intror (or_intror Hread)))
    as [-> _].
Defined.

(** X6: the three indexed reads agree.  [getMessage] returns a record's
    four fields exactly when [getMessageMetadata] returns its sender, time
    and flag and [getEncryptedContent] returns its payload, at the same
    user and index. *)
Theorem reads_agree s user index from (content : list Byte.byte) time response :
  getMessage s user index = Ok (from, content, time, response)
  ↔ getMessageMetadata s user index = Ok (from, time, response)
    ∧ getEncryptedContent s user index = Ok content.
Proof.
  unfold getMessageMetadata, getEncryptedContent, getMessage, bind, require.
  destruct (index <? len (messagesOf s user)); cbn; [|by split; [|intros []]].
  destruct (at_index s user index) as [m|]; cbn; [|by split; [|intros []]].
  split.
  - intros; by simplify_eq.
  - intros []; by simplify_eq.
Qed.

(** ** What a call can do to a list *)

(** The three things a call can do to the list of an address. *)
Lemma list_after_cases c e s user :
  messagesOf (after c e s) user = messagesOf s user
  ∨ (user = this e
     ∧ ∃ m, messagesOf (after c e s) user = messagesOf s user ++ [m])
  ∨ (user = msg_sender e ∧ c = CallClearMessages
     ∧ messagesOf (after c e s) user = []).
Proof.
  destruct c as [content|content| |]; unfold after; cbn.
  - destruct (storeMessage e content s) as [[s' evs]|] eqn:Hrun; [|by left].
    apply storeMessage_ok in Hrun as ->.
    destruct (decide (this e = user)) as [<- | Hne].
    + right; left. split; [done|]. eexists. apply messagesOf_push_eq.
    + left. by apply messagesOf_push_ne.
  - destruct (storeResponse e content s) as [[s' evs]|] eqn:Hrun; [|by left].
    apply storeResponse_ok in Hrun as ->.
    destruct (decide (this e = user)) as [<- | Hne].
    + right; left. split; [done|]. eexists. apply messagesOf_push_eq.
    + left. by apply messagesOf_push_ne.
  - destruct (decide (msg_sender e = user)) as [<- | Hne].
    + right; right. split_and!; [done | done | apply messagesOf_delete_eq].
    + left. by apply messagesOf_delete_ne.
  - by left.
Qed.

(** X7: stored records are immutable.  Whatever the call and whoever sends
    it, the list of an address afterwards is the list before, or the list
    before with one record appended (only for the contract's own address),
    or empty (only for the sender, by [clearMessages]). *)
Theorem records_are_immutable c e s user :
  getAllMessages (after c e s) user = getAllMessages s user
  ∨ (user = this e
     ∧ ∃ m, getAllMessages (after c e s) user = getAllMessages s user ++ [m])
  ∨ (user = msg_sender e ∧ c = CallClearMessages
     ∧ getAllMessages (after c e s) user = []).
Proof. apply list_after_cases. Qed.

(** X8: no call removes or changes a record of anyone but its sender: the
    list of every other address afterwards starts with the list it held
    before. *)
Theorem no_cross_user_deletion c e s user :
  user ≠ msg_sender e ->
  getAllMessages s user `prefix_of` getAllMessages (after c e s) user.
Proof.
  intros Hne.
  unfold getAllMessages.
  destruct (list_after_cases c e s user) as [-> | [(_ & m & ->) | (Heq & _)]];
    [done | by apply prefix_app_r | done].
Qed.

Lemma no_cross_user_deletion_witness :
  getAllMessages stored bob
  `prefix_of` getAllMessages (after CallClearMessages (mkEnv vault alice 30) stored) bob.
Proof.
  apply (no_cross_user_deletion CallClearMessages (mkEnv vault alice 30) stored bob).
  by vm_compute.
Defined.

(** ** Clearing *)

(** X9: after [clearMessages] every indexed read of the sender's list
    reverts with "Vault: Index error", at every index, and the batch read
    returns the empty array; clearing again changes nothing. *)
Theorem clear_then_read e s index :
  let s' := after CallClearMessages e s in
  getMessageMetadata s' (msg_sender e) index = Revert (Error "Vault: Index error")
  ∧ getEncryptedContent s' (msg_sender e) index = Revert (Error "Vault: Index error")
  ∧ getMessage s' (msg_sender e) index = Revert (Error "Vault: Index error")
  ∧ getAllMessages s' (msg_sender e) = []
  ∧ after CallClearMessages e s' = s'.
Proof.
  cbv zeta. unfold after. cbn.
  unfold getMessageMetadata, getEncryptedContent, getMessage, getAllMessages,
    bind, require.
  rewrite messagesOf_delete_eq.
  destruct (N.ltb_spec index (len (@nil Message))) as [Hlt|]; [unfold len in Hlt; cbn in Hlt; lia|].
  split_and!; try done.
  unfold delete_messages. cbn. f_equal. apply delete_delete_eq.
Qed.

(** ** Stored records *)

(** What a call does to storage, with what is known of a pushed record. *)
Lemma after_cases_record c e s :
  after c e s = s
  ∨ (∃ m, 1 <= len (encryptedContent m) <= 16384
          ∧ (isResponse m = true -> sender m = this e)
          ∧ after c e s = push (this e) m s)
  ∨ after c e s = delete_messages (msg_sender e) s.
Proof.
  unfold after. destruct c as [content|content| |]; cbn.
  - destruct (storeMessage e content s) as [[s' evs]|f] eqn:Hrun; [|by left].
    right; left. exists (userRecord e content).
    assert (is_revert (storeMessage e content s) = false) as Hok by by rewrite Hrun.
    apply storeMessage_succeeds_iff in Hok as [Hlen _].
    split_and!; [cbn; lia | cbn; lia | done | by eapply storeMessage_ok].
  - destruct (storeResponse e content s) as [[s' evs]|f] eqn:Hrun; [|by left].
    right; left. exists (responseRecord e content).
    assert (is_revert (storeResponse e content s) = false) as Hok by by rewrite Hrun.
    apply storeResponse_succeeds_iff in Hok as [Hlen _].
    split_and!; [cbn; lia | cbn; lia | done | by eapply storeResponse_ok].
  - by right; right.
  - by left.
Qed.

(** X10: in every reachable state every stored record carries a payload
    of 1 to 16384 bytes, and every record marked as a response names the
    contract itself as its sender. *)
Theorem records_well_formed vault s user m :
  reachable vault s -> m ∈ getAllMessages s user ->
  1 <= len (encryptedContent m) <= 16384
  ∧ (isResponse m = true -> sender m = vault).
Proof.
  unfold getAllMessages. intros Hreach. revert user m.
  induction Hreach as [|s c from now Hreach IH]; intros user m.
  - rewrite messagesOf_initial. by intros ?%elem_of_nil.
  - destruct (after_cases_record c (mkEnv vault from now) s)
      as [-> | [(m' & Hlen & Hresp & ->) | ->]]; cbn in *.
    + apply IH.
    + destruct (decide (vault = user)) as [<- | Hne].
      * rewrite messagesOf_push_eq, elem_of_app, list_elem_of_singleton.
        intros [Hold | ->]; [by eapply IH | done].
      * rewrite messagesOf_push_ne; [apply IH | done].
    + destruct (decide (from = user)) as [<- | Hne].
      * rewrite messagesOf_delete_eq. by intros ?%elem_of_nil.
      * rewrite messagesOf_delete_ne; [apply IH | done].
Qed.

Lemma records_well_formed_witness :
  ∃ m, getAllMessages after_self_store vault = [m]
       ∧ 1 <= len (encryptedContent m) <= 16384.
Proof.
  exists (mkMessage "" vault one_byte 7 false). split; [by vm_compute|].
  eapply (records_well_formed vault after_self_store vault).
  - apply reachable_step, reachable_initial.
  - vm_compute. apply list_elem_of_here.
Defined.

End VaultMore.

(** * Further properties of the client *)

Module ClientFacts.
Import Hook Client.

Open Scope string_scope.

(** ** The automatic response *)

(** X11: the automatic response is always one of the five fixed texts,
    never an out-of-range read, and two messages get the same response
    whenever their lengths agree modulo 5. *)
Theorem auto_response_by_length (userMessage other : string) :
  generateAutoResponse userMessage ∈ responses
  ∧ ((String.length userMessage mod 5 = String.length other mod 5)%nat ->
     generateAutoResponse userMessage = generateAutoResponse other).
Proof.
  unfold generateAutoResponse. change (length responses) with 5%nat. split.
  - destruct (lookup_lt_is_Some_2 responses (String.length userMessage mod 5))
      as [r Hr].
    { change (length responses) with 5%nat. apply Nat.mod_upper_bound. lia. }
    rewrite Hr. cbn. by eapply list_elem_of_lookup_2.
  - by intros ->.
Qed.

(** ** Deployment addresses *)

Section Deployed.
Import Deployments.

Variable fetched : outcome (option (gmap string Deployment)).

(** When an address comes back, where it came from. *)
Lemma getContractAddress_some chain cache a :
  fst (getContractAddress fetched chain cache) = Some a ->
  ∃ id entry, chain = Some id ∧ id ≠ 0%N
    ∧ fst (fetchDeployments fetched cache) !! pretty id = Some entry
    ∧ address entry = a ∧ a ≠ "" ∧ a ≠ ZeroAddress.
Proof.
  unfold getContractAddress. destruct chain as [[|p]|]; try done.
  destruct (fetchDeployments fetched cache) as [deployments cache'].
  destruct (deployments !! pretty (N.pos p)) as [entry|] eqn:Hentry; [|done].
  destruct (address entry) as [|c rest] eqn:Haddr; [done|].
  cbn [truthy negb orb]. case_bool_decide as Hzero; [done|].
  case_bool_decide; [done|]. cbn. intros [= <-].
  exists (N.pos p), entry. by rewrite Haddr.
Qed.

End Deployed.

(** X12: the deployment map is fetched once.  After a call that found or
    filled the cache, every later call returns the same map whatever the
    network does then; a failed fetch returns the empty map and caches
    nothing, so the next call asks the network again; and after
    [clearDeploymentCache] the next call fetches afresh. *)
Theorem deployments_are_cached
    (fetched later : outcome (option (gmap string Deployments.Deployment)))
    (cache : option (gmap string Deployments.Deployment)) :
  let r := Deployments.fetchDeployments fetched cache in
  (snd r ≠ None -> Deployments.fetchDeployments later (snd r) = r)
  ∧ (snd r = None ↔ cache = None ∧ threw fetched = true)
  ∧ (snd r = None -> fst r = ∅)
  ∧ Deployments.fetchDeployments later (Deployments.clearDeploymentCache (snd r))
    = Deployments.fetchDeployments later None.
Proof.
  unfold Deployments.fetchDeployments.
  destruct cache as [deployments|]; [|destruct fetched as [data|t]]; cbn;
    split_and!; try done; try (by split; [|intros []]).
Qed.

(** X13: [getContractAddress] never hands out an unusable address.  An
    address it returns is neither empty nor the zero address and comes
    with a chain id that is not 0; for a chain id below 2^53, whose
    [toString()] is its decimal text, it is the address of the entry the
    deployment map holds under that text. *)
Theorem contract_address_is_usable
    (fetched : outcome (option (gmap string Deployments.Deployment)))
    (chain : option N) (cache : option (gmap string Deployments.Deployment))
    (a : string) :
  fst (Deployments.getContractAddress fetched chain cache) = Some a ->
  a ≠ "" ∧ a ≠ Deployments.ZeroAddress
  ∧ ∃ id, chain = Some id ∧ id ≠ 0%N
      ∧ ((id < 9007199254740992)%N ->
         ∃ entry,
           fst (Deployments.fetchDeployments fetched cache) !! pretty id = Some entry
           ∧ Deployments.address entry = a).
Proof.
  intros Hsome.
  destruct (getContractAddress_some fetched chain cache a Hsome)
    as (id & entry & ? & ? & ? & ? & ? & ?).
  split_and!; [done | done |]. exists id. split_and!; [done | done |].
  intros _. by exists entry.
Qed.

Lemma contract_address_is_usable_witness :
  fst (Deployments.getContractAddress (Returned (Some ClientSamples.deployments_file))
         (Some 31337%N) None) = Some ClientSamples.local_vault
  ∧ ClientSamples.local_vault ≠ Deployments.ZeroAddress
  ∧ ∃ entry, ClientSamples.deployments_file !! "31337" = Some entry
             ∧ Deployments.address entry = ClientSamples.local_vault.
Proof.
  assert (fst (Deployments.getContractAddress
                 (Returned (Some ClientSamples.deployments_file))
                 (Some 31337%N) None) = Some ClientSamples.local_vault) as Hrun
    by (by vm_compute).
  split; [exact Hrun|].
  destruct (contract_address_is_usable _ _ _ _ Hrun)
    as (_ & Hzero & id & [= <-] & _ & Hentry).
  split; [exact Hzero|].
  apply Hentry. by vm_compute.
Defined.

(** X14: [getContract] yields a contract object only for a connected
    wallet on a chain with a usable deployment address, and then it is the
    object made for that wallet and address; on a chain whose entry is
    missing, empty or the zero address it yields [null], the demo mode,
    without trying the wallet. *)
Theorem contract_needs_deployment
    (WalletClient : Type) (connect : WalletClient -> string -> outcome Signer)
    (fetched : outcome (option (gmap string Deployments.Deployment)))
    (walletClient : option WalletClient) (chainId : option N)
    (cache : option (gmap string Deployments.Deployment)) :
  let r := getContract WalletClient connect fetched walletClient chainId cache in
  (fst (Deployments.getContractAddress fetched chainId cache) = None ->
   fst r = Returned None)
  ∧ (∀ contract, fst r = Returned (Some contract) ->
     ∃ wallet a, walletClient = Some wallet
       ∧ fst (Deployments.getContractAddress fetched chainId cache) = Some a
       ∧ connect wallet a = Returned contract
       ∧ a ≠ "" ∧ a ≠ Deployments.ZeroAddress).
Proof.
  cbv zeta. unfold getContract.
  destruct walletClient as [wallet|], chainId as [[|p]|]; cbn [fst];
    try (split; [done | by intros contract [=]]).
  destruct (Deployments.getContractAddress fetched (Some (N.pos p)) cache)
    as [[a|] cache'] eqn:Haddr; cbn [fst].
  - split; [done|]. intros contract Hrun.
    destruct (connect wallet a) as [c|t] eqn:Hconnect; [|done].
    injection Hrun as ->. exists wallet, a.
    destruct (getContractAddress_some fetched (Some (N.pos p)) cache a)
      as (id & entry & _ & _ & _ & _ & ? & ?); [by rewrite Haddr|].
    by split_and!.
  - split; [done | by intros contract [=]].
Qed.

Lemma contract_needs_deployment_witness :
  fst (getContract unit (λ _ _, Returned ClientSamples.rejecting_signer)
         (Returned (Some ClientSamples.deployments_file))
         (Some tt) (Some 11155111%N) None) = Returned None.
Proof.
  pose proof (contract_needs_deployment unit
                (λ _ _, Returned ClientSamples.rejecting_signer)
                (Returned (Some ClientSamples.deployments_file))
                (Some tt) (Some 11155111%N) None) as [Hdemo _].
  apply Hdemo. by vm_compute.
Defined.

(** ** Loading *)

(** X15: when the contract read succeeds, [loadMessages] replaces the list
    by the chain's, whatever the list held before: message [i] has id [i],
    the sender, payload and flag of the chain's record [i], no decrypted
    text, and, for a time between 0 and 2^53, the time of that record.
    The cache is neither read nor written and no error is reported. *)
Theorem loadMessages_from_chain
    (JSON_parse : string -> outcome (list Message)) (contract : Contract)
    (address : string) (all : list ChainMessage) (w : World) :
  truthy address = true ->
  getAllMessages contract address = Returned all ->
  let r := loadMessages JSON_parse (Returned (Some contract)) (Some address) w in
  snd r = Returned tt
  ∧ length (messages (fst r)) = length all
  ∧ (∀ i c, all !! i = Some c ->
       ∃ m, messages (fst r) !! i = Some m
            ∧ id m = Z.of_nat i
            ∧ sender m = chain_sender c
            ∧ encryptedContent m = chain_encryptedContent c
            ∧ isResponse m = chain_isResponse c
            ∧ decryptedText m = None
            ∧ ((0 <= chain_timestamp c <= 9007199254740992)%Z ->
               timestamp m = chain_timestamp c))
  ∧ numbered (messages (fst r))
  ∧ localStorage (fst r) = localStorage w
  ∧ error (fst r) = None
  ∧ loading (fst r) = false.
Proof.
  intros Hconn Hall. cbv zeta.
  unfold loadMessages, loadMessages_try. rewrite Hconn, Hall. cbn.
  split_and!; try done.
  - apply length_imap.
  - intros i c Hc. rewrite list_lookup_imap, Hc. cbn.
    eexists. by split_and!.
  - intros i m. rewrite list_lookup_imap.
    destruct (all !! i) as [c|]; [|done]. by intros [= <-].
Qed.

Lemma loadMessages_from_chain_witness :
  ∃ m, messages (fst (loadMessages JSON.parse
                        (Returned (Some ClientSamples.local_chain))
                        (Some Samples.wallet) Samples.malformed_cache)) !! 1%nat
       = Some m
       ∧ id m = 1%Z ∧ sender m = "0xV" ∧ encryptedContent m = "0xbb"
       ∧ timestamp m = 12%Z ∧ isResponse m = true.
Proof.
  destruct (loadMessages_from_chain JSON.parse ClientSamples.local_chain Samples.wallet
              ClientSamples.chain_records Samples.malformed_cache eq_refl eq_refl)
    as (_ & _ & Heach & _).
  destruct (Heach 1%nat (mkChainMessage "" "0xV" "0xbb" 12 true) eq_refl)
    as (m & Hm & Hid & Hsender & Hcontent & Hflag & _ & Htime).
  exists m. split_and!; try done. apply Htime. cbn. lia.
Defined.

(** With nothing usable in the cache, a load that turns to it changes
    neither the list nor the storage. *)
Lemma load_no_entry
    (JSON_parse : string -> outcome (list Message))
    (getContract : outcome (option Contract)) (address : string) (w : World) :
  truthy address = true ->
  readsCache getContract address = true ->
  getItem (storageKey address) w = None ∨ getItem (storageKey address) w = Some "" ->
  messages (fst (loadMessages JSON_parse getContract (Some address) w)) = messages w
  ∧ localStorage (fst (loadMessages JSON_parse getContract (Some address) w))
    = localStorage w.
Proof.
  intros Hconn Hreads Hcache.
  unfold loadMessages, loadMessages_try, loadMessages_catch, readsCache in *.
  rewrite Hconn.
  destruct getContract as [[contract|]|t].
  - destruct (getAllMessages contract address) as [all|t]; [done|].
    destruct (_ || _); cbn; unfold getItem in *; cbn;
      by destruct Hcache as [-> | ->].
  - unfold getItem in *; cbn; by destruct Hcache as [-> | ->].
  - destruct (_ || _); cbn; unfold getItem in *; cbn;
      by destruct Hcache as [-> | ->].
Qed.


(** X16: when [loadMessages] turns to the cache and finds no entry for
    the wallet, or the empty string, it leaves the message list as it was:
    the list is not emptied, and the storage is untouched. *)
Theorem loadMessages_without_cache
    (JSON_parse : string -> outcome (list Message))
    (getContract : outcome (option Contract)) (address : string) (w : World) :
  truthy address = true ->
  readsCache getContract address = true ->
  getItem (storageKey address) w = None ∨ getItem (storageKey address) w = Some "" ->
  let r := loadMessages JSON_parse getContract (Some address) w in
  messages (fst r) = messages w ∧ localStorage (fst r) = localStorage w.
Proof. apply load_no_entry. Qed.

Lemma loadMessages_without_cache_witness :
  messages (fst (loadMessages JSON.parse (Returned None) (Some Samples.wallet)
                   ClientSamples.one_message))
  = [Samples.hello].
Proof.
  by destruct (loadMessages_without_cache JSON.parse (Returned None) Samples.wallet
                 ClientSamples.one_message eq_refl eq_refl (or_introl eq_refl))
    as [-> _].
Defined.

(** X17: when [loadMessages] turns to the cache and the entry parses, the
    message list becomes the parsed list and the storage is untouched,
    in demo mode and after a failed contract call alike. *)
Theorem loadMessages_from_cache
    (JSON_parse : string -> outcome (list Message))
    (getContract : outcome (option Contract))
    (address stored : string) (parsed : list Message) (w : World) :
  truthy address = true ->
  readsCache getContract address = true ->
  getItem (storageKey address) w = Some stored ->
  truthy stored = true ->
  JSON_parse stored = Returned parsed ->
  let r := loadMessages JSON_parse getContract (Some address) w in
  messages (fst r) = parsed ∧ localStorage (fst r) = localStorage w.
Proof.
  intros Hconn Hreads Hcache Hstored Hparse. cbv zeta.
  unfold loadMessages, loadMessages_try, loadMessages_catch, readsCache in *.
  rewrite Hconn.
  destruct getContract as [[contract|]|t].
  - destruct (getAllMessages contract address) as [all|t]; [done|].
    destruct (_ || _); cbn; unfold getItem in *; cbn;
      by rewrite Hcache, Hstored, Hparse.
  - unfold getItem in *; cbn; by rewrite Hcache, Hstored, Hparse.
  - destruct (_ || _); cbn; unfold getItem in *; cbn;
      by rewrite Hcache, Hstored, Hparse.
Qed.

Lemma loadMessages_from_cache_witness :
  messages (fst (loadMessages JSON.parse (Returned None) (Some Samples.wallet)
                   ClientSamples.after_send))
  = messages ClientSamples.after_send.
Proof.
  destruct (loadMessages_from_cache JSON.parse (Returned None) Samples.wallet
              (Stringify.stringify (messages ClientSamples.after_send))
              (messages ClientSamples.after_send) ClientSamples.after_send
              ltac:(by vm_compute) ltac:(by vm_compute) ltac:(by vm_compute)
              ltac:(by vm_compute) ltac:(by vm_compute))
    as [Hlist _].
  exact Hlist.
Defined.

(** The [catch] block always leaves an error message. *)
Lemma catch_sets_error
    (JSON_parse : string -> outcome (list Message)) (address : string)
    (err : Thrown) (w : World) :
  error (loadMessages_catch JSON_parse address err w) ≠ None
  ∧ loading (loadMessages_catch JSON_parse address err w) = loading w.
Proof.
  unfold loadMessages_catch.
  destruct (includes _ _ || includes _ _); unfold getItem; cbn;
    by repeat case_match.
Qed.

(** The demo-mode branch leaves the error and the loading flag alone. *)
Lemma demo_mode_keeps_error
    (JSON_parse : string -> outcome (list Message)) (address : string) (w : World) :
  ∃ w', loadMessages_try JSON_parse (Returned None) address w = (w', Returned tt)
        ∧ error w' = error w ∧ loading w' = loading w.
Proof.
  unfold loadMessages_try, getItem.
  repeat case_match; eexists; by split_and!.
Qed.

(** X18: [loadMessages] reports an error exactly when a contract call
    threw, also when it then shows the cached list; in demo mode and after
    a successful read the error is cleared.  It never throws and always
    ends with [loading] off. *)
Theorem loadMessages_error
    (JSON_parse : string -> outcome (list Message))
    (getContract : outcome (option Contract)) (address : string) (w : World) :
  truthy address = true ->
  let r := loadMessages JSON_parse getContract (Some address) w in
  (error (fst r) = None ↔ contractFailed getContract address = false)
  ∧ snd r = Returned tt
  ∧ loading (fst r) = false.
Proof.
  intros Hconn. cbv zeta. unfold loadMessages, contractFailed. rewrite Hconn.
  destruct getContract as [[contract|]|t].
  - unfold loadMessages_try.
    destruct (getAllMessages contract address) as [all|t]; [done|].
    cbn. split_and!; try done.
    split; [|done]. by intros ?%catch_sets_error.
  - destruct (demo_mode_keeps_error JSON_parse address
                (setError None (setLoading true w))) as (w' & -> & Herr & _).
    cbn in *. by rewrite Herr.
  - unfold loadMessages_try. cbn. split_and!; try done.
    split; [|done]. by intros ?%catch_sets_error.
Qed.

Lemma loadMessages_error_witness :
  error (fst (loadMessages JSON.parse (Returned (Some Samples.unreachable_contract))
                (Some Samples.wallet) ClientSamples.one_message))
  ≠ None.
Proof.
  destruct (loadMessages_error JSON.parse (Returned (Some Samples.unreachable_contract))
              Samples.wallet ClientSamples.one_message eq_refl) as ([Hnone _] & _ & _).
  intros Herr. by specialize (Hnone Herr).
Defined.

(** ** Decrypting again *)

Lemma decryptOne_twice decryptText p1 p2 msg :
  decryptOne decryptText p2 (decryptOne decryptText p1 msg)
  = decryptOne decryptText p2 msg.
Proof.
  unfold decryptOne.
  destruct (decryptText (encryptedContent msg) p1); cbn;
    by destruct (decryptText (encryptedContent msg) p2).
Qed.

(** What [decryptAllMessages] returns when there is something to decrypt
    and [getContract] does not throw. *)
Lemma decryptAllMessages_returned decryptText getContract password w :
  messages w ≠ [] -> threw getContract = false ->
  decryptAllMessages decryptText getContract password w
  = (mkWorld (map (decryptOne decryptText password) (messages w)) false None
       (localStorage w), Returned tt).
Proof.
  intros Hcons Hok. unfold decryptAllMessages.
  destruct (HookFacts.decryptAllMessages_try_cases decryptText getContract password
              (setError None (setLoading true w)))
    as [(Hnil & _) | [(_ & t & Hthrew & _) | (_ & _ & ->)]].
  - done.
  - rewrite Hthrew in Hok. discriminate Hok.
  - done.
Qed.

(** X19: a later decryption overrides an earlier one completely.  After a
    first [decryptAllMessages] that returned, a second one, with the same
    or another password, leaves exactly the state it would have left on
    the original list; with the same password nothing changes. *)
Theorem later_decryption_overrides
    (decryptText : string -> string -> outcome string)
    (first second : outcome (option Contract)) (p1 p2 : string) (w : World) :
  threw (snd (decryptAllMessages decryptText first p1 w)) = false ->
  threw second = false ->
  decryptAllMessages decryptText second p2
    (fst (decryptAllMessages decryptText first p1 w))
  = decryptAllMessages decryptText second p2 w
  ∧ snd (decryptAllMessages decryptText second p2 w) = Returned tt.
Proof.
  intros Hfirst Hsecond.
  assert (messages w ≠ [] ∧ threw first = false) as [Hcons Hok].
  { revert Hfirst. unfold decryptAllMessages.
    destruct (HookFacts.decryptAllMessages_try_cases decryptText first p1
                (setError None (setLoading true w)))
      as [(_ & ->) | [(_ & t & _ & ->) | (Hcons & Hok & _)]]; done. }
  rewrite (decryptAllMessages_returned decryptText first p1 w Hcons Hok). cbn [fst].
  rewrite !decryptAllMessages_returned; try done.
  - cbn. split; [|done]. do 2 f_equal.
    rewrite <- list_fmap_compose. apply list_fmap_ext.
    intros i m _. apply decryptOne_twice.
  - cbn. by destruct (messages w).
Qed.

Lemma later_decryption_overrides_witness :
  fst (decryptAllMessages Samples.sample_decryptText (Returned None) "pw:"
         (fst (decryptAllMessages Samples.sample_decryptText (Returned None) "zz:"
                 Samples.three_messages)))
  = fst (decryptAllMessages Samples.sample_decryptText (Returned None) "pw:"
           Samples.three_messages).
Proof.
  by destruct (later_decryption_overrides Samples.sample_decryptText (Returned None)
                 (Returned None) "zz:" "pw:" Samples.three_messages eq_refl eq_refl)
    as [-> _].
Defined.

(** X20: [decryptAllMessages] never writes to local storage and always
    ends with [loading] off.  When it throws, the message list is as it
    was and the error is the message thrown; when it returns, the error is
    cleared. *)
Theorem decryptAllMessages_frame
    (decryptText : string -> string -> outcome string)
    (getContract : outcome (option Contract)) (password : string) (w : World) :
  let r := decryptAllMessages decryptText getContract password w in
  localStorage (fst r) = localStorage w
  ∧ loading (fst r) = false
  ∧ (∀ t, snd r = Threw t ->
       messages (fst r) = messages w
       ∧ error (fst r) = Some (messageOr "Decryption failed" t))
  ∧ (snd r = Returned tt -> error (fst r) = None).
Proof.
  cbv zeta. unfold decryptAllMessages.
  destruct (HookFacts.decryptAllMessages_try_cases decryptText getContract password
              (setError None (setLoading true w)))
    as [(_ & ->) | [(_ & t & _ & ->) | (_ & _ & ->)]]; cbn;
    split_and!; try done; by intros t' [= <-].
Qed.

(** ** Sending *)

Section Sending.

Variable entropy : Type.
Variable encryptText : entropy -> string -> string -> outcome string.
Variable JSON_parse : string -> outcome (list Message).
Variable JSON_stringify : list Message -> string.
Variable getContract : outcome (option Signer).
Variable getContractAgain : outcome (option Contract).
Variable now : Z.
Variables (draw1 draw2 : entropy) (messageText password : string).

(** When the [try] block of [sendMessage] throws, it has changed nothing. *)
Lemma sendMessage_try_threw address w w' t :
  sendMessage_try entropy encryptText JSON_parse JSON_stringify getContract
    getContractAgain now address draw1 draw2 messageText password w = (w', Threw t) ->
  w' = w.
Proof.
  unfold sendMessage_try. intros Hrun.
  repeat case_match; by simplify_eq.
Qed.

(** The two messages a send in demo mode appends. *)
Lemma sendMessage_try_demo address w c1 c2 :
  getContract = Returned None ->
  encryptText draw1 messageText password = Returned c1 ->
  encryptText draw2 (generateAutoResponse messageText) password = Returned c2 ->
  sendMessage_try entropy encryptText JSON_parse JSON_stringify getContract
    getContractAgain now address draw1 draw2 messageText password w
  = (let newMessages :=
       (messages w ++
        [mkMessage (Z.of_nat (length (messages w))) address c1 now false None;
         mkMessage (Z.of_nat (length (messages w)) + 1) "system" c2 (now + 1) true
           None])%list in
     setItem (storageKey address) (JSON_stringify newMessages)
       (setMessages newMessages w), Returned tt).
Proof. unfold sendMessage_try. by intros -> -> ->. Qed.

End Sending.

Lemma numbered_app_two (ms : list Message) (m1 m2 : Message) :
  numbered ms ->
  id m1 = Z.of_nat (length ms) -> id m2 = (Z.of_nat (length ms) + 1)%Z ->
  numbered (ms ++ [m1; m2]).
Proof.
  intros Hms H1 H2 i m Hi.
  destruct (decide (i < length ms)%nat) as [Hlt | Hge].
  - rewrite lookup_app_l in Hi by done. by apply Hms.
  - rewrite lookup_app_r in Hi by lia.
    destruct (i - length ms)%nat as [|[|k]] eqn:Hk; simplify_eq/=; lia.
Qed.

(** X21: in demo mode, with both encryptions succeeding, [sendMessage]
    appends exactly two messages to the list it had: the user's, then the
    system's response to it one second later, numbered on from the length
    of the list.  It writes the whole new list, decrypted texts included,
    to the wallet's cache entry, and if the ids were the positions before,
    they still are. *)
Theorem sendMessage_in_demo_mode
    (entropy : Type) (encryptText : entropy -> string -> string -> outcome string)
    (JSON_parse : string -> outcome (list Message))
    (JSON_stringify : list Message -> string)
    (getContractAgain : outcome (option Contract)) (now : Z)
    (draw1 draw2 : entropy) (messageText password address c1 c2 : string)
    (w : World) :
  truthy address = true ->
  encryptText draw1 messageText password = Returned c1 ->
  encryptText draw2 (generateAutoResponse messageText) password = Returned c2 ->
  let r := sendMessage entropy encryptText JSON_parse JSON_stringify (Returned None)
             (Some address) getContractAgain now draw1 draw2 messageText password w in
  snd r = Returned tt
  ∧ messages (fst r)
    = (messages w ++
       [mkMessage (Z.of_nat (length (messages w))) address c1 now false None;
        mkMessage (Z.of_nat (length (messages w)) + 1) "system" c2 (now + 1) true
          None])%list
  ∧ getItem (storageKey address) (fst r) = Some (JSON_stringify (messages (fst r)))
  ∧ (numbered (messages w) -> numbered (messages (fst r))).
Proof.
  intros Hconn H1 H2. cbv zeta. unfold sendMessage. rewrite Hconn.
  rewrite (sendMessage_try_demo _ _ _ _ _ _ _ _ _ _ _ _ _ c1 c2 eq_refl H1 H2).
  cbn. split_and!; try done.
  - unfold getItem. cbn. apply lookup_insert_eq.
  - intros Hnum. by apply numbered_app_two.
Qed.

Lemma sendMessage_in_demo_mode_witness :
  length (messages ClientSamples.after_send) = 3%nat
  ∧ numbered (messages ClientSamples.after_send).
Proof.
  destruct (sendMessage_in_demo_mode unit ClientSamples.sample_encryptText JSON.parse
              Stringify.stringify (Returned None) 200 tt tt "hi" "pw:" Samples.wallet
              "pw:hi" ("pw:" +:+ generateAutoResponse "hi") ClientSamples.one_message
              eq_refl eq_refl eq_refl) as (_ & Hlist & _ & Hnum).
  unfold ClientSamples.after_send. split.
  - by rewrite Hlist.
  - apply Hnum. intros [|i] m; [by intros [= <-] | done].
Defined.

(** X22: when [sendMessage] throws, by a failed encryption, a failing
    [getContract], a rejected first or second transaction, or because no
    wallet is connected, the message list and the local storage are exactly
    as before; with a wallet connected the error is the message thrown. *)
Theorem sendMessage_failure_changes_nothing
    (entropy : Type) (encryptText : entropy -> string -> string -> outcome string)
    (JSON_parse : string -> outcome (list Message))
    (JSON_stringify : list Message -> string)
    (getContract : outcome (option Signer)) (address : option string)
    (getContractAgain : outcome (option Contract)) (now : Z)
    (draw1 draw2 : entropy) (messageText password : string) (w : World) (t : Thrown) :
  let r := sendMessage entropy encryptText JSON_parse JSON_stringify getContract
             address getContractAgain now draw1 draw2 messageText password w in
  snd r = Threw t ->
  messages (fst r) = messages w
  ∧ localStorage (fst r) = localStorage w
  ∧ (∀ a, address = Some a -> truthy a = true ->
       error (fst r) = Some (messageOr "Failed to send" t)
       ∧ loading (fst r) = false).
Proof.
  cbv zeta. unfold sendMessage.
  destruct address as [a|]; [|intros [= <-]; by split_and!].
  destruct (truthy a) eqn:Hconn.
  - destruct (sendMessage_try _ _ _ _ _ _ _ _ _ _ _ _ _) as [w' [[]|err]] eqn:Hrun;
      [done|].
    apply sendMessage_try_threw in Hrun as ->. cbn. intros [= <-].
    by split_and!.
  - intros [= <-]. split_and!; try done. intros a' [= <-] Htrue. congruence.
Qed.

Lemma sendMessage_failure_changes_nothing_witness :
  messages (fst (sendMessage unit ClientSamples.sample_encryptText JSON.parse
                   Stringify.stringify
                   (Returned (Some ClientSamples.rejecting_signer))
                   (Some Samples.wallet) (Returned None) 200 tt tt "hi" "pw:"
                   ClientSamples.one_message))
  = [Samples.hello].
Proof.
  by destruct (sendMessage_failure_changes_nothing unit ClientSamples.sample_encryptText
                 JSON.parse Stringify.stringify
                 (Returned (Some ClientSamples.rejecting_signer))
                 (Some Samples.wallet) (Returned None) 200 tt tt "hi" "pw:"
                 ClientSamples.one_message (JsError "user rejected") eq_refl)
    as (-> & _).
Defined.

(** X23: what a send in demo mode wrote, a load in demo mode reads back.
    If the platform's [JSON.parse] returns the list that [JSON.stringify]
    was given, then after [sendMessage] a [loadMessages] shows the same
    list and leaves the storage as it is. *)
Theorem send_then_load
    (entropy : Type) (encryptText : entropy -> string -> string -> outcome string)
    (JSON_parse : string -> outcome (list Message))
    (JSON_stringify : list Message -> string)
    (getContractAgain : outcome (option Contract)) (now : Z)
    (draw1 draw2 : entropy) (messageText password address : string) (w : World) :
  let sent := sendMessage entropy encryptText JSON_parse JSON_stringify
                (Returned None) (Some address) getContractAgain now draw1 draw2
                messageText password w in
  let loaded := loadMessages JSON_parse (Returned None) (Some address) (fst sent) in
  truthy address = true ->
  snd sent = Returned tt ->
  JSON_parse (JSON_stringify (messages (fst sent))) = Returned (messages (fst sent)) ->
  messages (fst loaded) = messages (fst sent)
  ∧ localStorage (fst loaded) = localStorage (fst sent).
Proof.
  cbv zeta. intros Hconn. unfold sendMessage. rewrite Hconn.
  destruct (sendMessage_try _ _ _ _ _ _ _ _ _ _ _ _ _) as [w' [[]|err]] eqn:Hrun;
    [|done].
  intros _. cbn [fst].
  assert (getItem (storageKey address) w' = Some (JSON_stringify (messages w')))
    as Hcache.
  { revert Hrun. unfold sendMessage_try.
    repeat case_match; try done. intros [= <-].
    unfold getItem. cbn. apply lookup_insert_eq. }
  change (messages (setLoading false w')) with (messages w'). intros Hparse.
  unfold loadMessages, loadMessages_try. rewrite Hconn.
  change (getItem (storageKey address) (setError None (setLoading true (setLoading false w'))))
    with (getItem (storageKey address) w').
  rewrite Hcache, Hparse. by destruct (truthy (JSON_stringify _)).
Qed.

Lemma send_then_load_witness :
  messages (fst (loadMessages JSON.parse (Returned None) (Some Samples.wallet)
                   ClientSamples.after_send))
  = messages ClientSamples.after_send
  ∧ length (messages ClientSamples.after_send) = 3%nat.
Proof.
  split; [|by vm_compute].
  by destruct (send_then_load unit ClientSamples.sample_encryptText JSON.parse
                 Stringify.stringify (Returned None) 200 tt tt "hi" "pw:" Samples.wallet
                 ClientSamples.one_message eq_refl eq_refl ltac:(by vm_compute))
    as [Hsame _].
Defined.

(** ** Clearing *)

(** X24: the hook's [clearMessages] never throws and ends with [loading]
    off.  If [getContract] or the clearing transaction throws, the message
    list and the local storage stay as they were and the error is the
    message thrown; otherwise the list is emptied, the wallet's cache entry
    is removed, every other entry is kept and the error is left as it
    was. *)
Theorem clearMessages_outcome
    (getContract : outcome (option Signer)) (address : string) (w : World) :
  truthy address = true ->
  let r := clearMessages getContract (Some address) w in
  snd r = Returned tt
  ∧ loading (fst r) = false
  ∧ match clearFailure getContract with
    | Some t =>
        messages (fst r) = messages w
        ∧ localStorage (fst r) = localStorage w
        ∧ error (fst r) = Some (messageOr "Failed to clear" t)
    | None =>
        messages (fst r) = []
        ∧ localStorage (fst r) = delete (storageKey address) (localStorage w)
        ∧ error (fst r) = error w
    end.
Proof.
  intros Hconn. cbv zeta.
  unfold clearMessages, clearMessages_try, clearFailure. rewrite Hconn.
  destruct getContract as [[contract|]|t]; [destruct (clearMessages_tx contract)| |];
    by cbn.
Qed.

Lemma clearMessages_outcome_witness :
  messages (fst (clearMessages (Returned (Some ClientSamples.rejecting_signer))
                   (Some Samples.wallet) ClientSamples.after_send))
  = messages ClientSamples.after_send
  ∧ messages (fst (clearMessages (Returned None) (Some Samples.wallet)
                     ClientSamples.after_send)) = [].
Proof.
  pose proof (clearMessages_outcome (Returned (Some ClientSamples.rejecting_signer))
                Samples.wallet ClientSamples.after_send eq_refl) as (_ & _ & Hkept).
  pose proof (clearMessages_outcome (Returned None) Samples.wallet
                ClientSamples.after_send eq_refl) as (_ & _ & Hgone).
  cbv zeta in *. cbn [clearFailure ClientSamples.rejecting_signer clearMessages_tx]
    in Hkept, Hgone.
  destruct Hkept as (Hkept & _). destruct Hgone as (Hgone & _).
  by split.
Defined.

(** X25: after the hook's [clearMessages] went through, a [loadMessages]
    that turns to the cache shows an empty list: there is no entry left
    to bring old messages back. *)
Theorem clear_then_load
    (JSON_parse : string -> outcome (list Message))
    (getContract : outcome (option Signer)) (reload : outcome (option Contract))
    (address : string) (w : World) :
  truthy address = true ->
  clearFailure getContract = None ->
  readsCache reload address = true ->
  messages (fst (loadMessages JSON_parse reload (Some address)
                   (fst (clearMessages getContract (Some address) w)))) = [].
Proof.
  intros Hconn Hclear Hreads.
  assert (messages (fst (clearMessages getContract (Some address) w)) = []
          ∧ getItem (storageKey address) (fst (clearMessages getContract (Some address) w))
            = None) as [Hnil Hnone].
  { revert Hclear. unfold clearMessages, clearMessages_try, clearFailure.
    rewrite Hconn.
    destruct getContract as [[contract|]|t];
      [destruct (clearMessages_tx contract)| |]; cbn; try done;
      intros _; split; try done; unfold getItem; cbn; apply lookup_delete_eq. }
  destruct (load_no_entry JSON_parse reload address _ Hconn Hreads (or_introl Hnone))
    as [-> _].
  exact Hnil.
Qed.

Lemma clear_then_load_witness :
  messages (fst (loadMessages JSON.parse (Returned None) (Some Samples.wallet)
                   (fst (clearMessages (Returned None) (Some Samples.wallet)
                           ClientSamples.after_send)))) = [].
Proof.
  apply (clear_then_load JSON.parse (Returned None) (Returned None) Samples.wallet
           ClientSamples.after_send); by vm_compute.
Defined.

End ClientFacts.

(** * Properties of the chat component *)

Module ChatFacts.
Import Hook WhisperChat.

Open Scope string_scope.

(** ** Strings *)

Lemma append_length (s t : string) :
  String.length (s +:+ t) = (String.length s + String.length t)%nat.
Proof. induction s as [|c s IH]; simpl; [done | by rewrite IH]. Qed.

Lemma substring_length (s : string) (n m : nat) :
  (n + m <= String.length s)%nat -> String.length (String.substring n m s) = m.
Proof.
  revert n m. induction s as [|c s IH]; intros [|n] [|m]; cbn; try lia; intros Hle.
  - by rewrite (IH 0%nat m) by (cbn; lia).
  - apply (IH n 0%nat). lia.
  - apply (IH n (S m)). lia.
Qed.

Lemma any_append (p : Ascii.ascii -> bool) (s t : string) :
  any p s = true -> any p (s +:+ t) = true.
Proof.
  induction s as [|c s IH]; simpl; [done|].
  destruct (p c); simpl; [done | apply IH].
Qed.

Lemma point_le (a b : bool) : (a = true -> b = true) -> (point a <= point b)%nat.
Proof. destruct a, b; cbn; intros H; try lia; discriminate (H eq_refl). Qed.

Lemma score_append (pwd suffix : string) : (score pwd <= score (pwd +:+ suffix))%nat.
Proof.
  unfold score. rewrite append_length.
  pose proof (point_le (6 <=? String.length pwd)%nat
                (6 <=? String.length pwd + String.length suffix)%nat) as H6.
  pose proof (point_le (10 <=? String.length pwd)%nat
                (10 <=? String.length pwd + String.length suffix)%nat) as H10.
  pose proof (point_le _ _ (any_append upper pwd suffix)).
  pose proof (point_le _ _ (any_append digit pwd suffix)).
  pose proof (point_le _ _ (any_append other pwd suffix)).
  assert (∀ k, (k <=? String.length pwd)%nat = true ->
               (k <=? String.length pwd + String.length suffix)%nat = true) as Hk.
  { intros k. rewrite !Nat.leb_le. lia. }
  specialize (H6 (Hk 6%nat)). specialize (H10 (Hk 10%nat)). lia.
Qed.

(** The level as a function of length and score. *)
Lemma level_by_score (pwd : string) :
  level (getPasswordStrength pwd)
  = if (String.length pwd <? 4)%nat then 0%nat
    else if (score pwd <=? 2)%nat then 1%nat
    else if (score pwd <=? 3)%nat then 2%nat else 3%nat.
Proof.
  unfold getPasswordStrength. destruct pwd as [|c pwd]; [done|].
  cbn [truthy negb orb]. by repeat case_match.
Qed.

(** ** The password meter *)

(** X26: the strength level is 0 exactly for passwords of fewer than
    4 characters and never above 3; level 3 needs at least 6 characters;
    and typing more characters never lowers the level. *)
Theorem password_strength_levels (pwd suffix : string) :
  (level (getPasswordStrength pwd) = 0%nat ↔ (String.length pwd < 4)%nat)
  ∧ (level (getPasswordStrength pwd) <= 3)%nat
  ∧ (level (getPasswordStrength pwd) = 3%nat -> (6 <= String.length pwd)%nat)
  ∧ (level (getPasswordStrength pwd)
     <= level (getPasswordStrength (pwd +:+ suffix)))%nat.
Proof.
  rewrite !level_by_score, append_length.
  pose proof (score_append pwd suffix) as Hscore.
  assert (score pwd <= point (6 <=? String.length pwd)%nat
                       + point (10 <=? String.length pwd)%nat + 3)%nat as Hclasses.
  { unfold score. destruct (any upper pwd), (any digit pwd), (any other pwd); cbn; lia. }
  assert ((String.length pwd < 6)%nat ->
          (point (6 <=? String.length pwd) + point (10 <=? String.length pwd)
           = 0)%nat) as Hshort.
  { intros Hlt.
    destruct (Nat.leb_spec 6 (String.length pwd)), (Nat.leb_spec 10 (String.length pwd));
      cbn; lia. }
  destruct (Nat.ltb_spec (String.length pwd) 4),
    (Nat.ltb_spec (String.length pwd + String.length suffix) 4),
    (Nat.leb_spec (score pwd) 2), (Nat.leb_spec (score pwd) 3),
    (Nat.leb_spec (score (pwd +:+ suffix)) 2),
    (Nat.leb_spec (score (pwd +:+ suffix)) 3);
    split_and!; (split; intros; lia) || lia.
Qed.

(** ** Shortened payloads *)

(** X27: [truncateHex] returns a text of at most 24 characters as it is,
    and shortens a longer one to 25 characters, so that what it shows is
    never longer than 25. *)
Theorem truncateHex_length (hex : string) :
  ((String.length hex <= 24)%nat -> truncateHex hex = hex)
  ∧ ((24 < String.length hex)%nat -> String.length (truncateHex hex) = 25%nat)
  ∧ (String.length (truncateHex hex) <= 25)%nat.
Proof.
  unfold truncateHex.
  destruct (Nat.leb_spec (String.length hex) 24) as [Hle | Hgt].
  - split_and!; [done | lia | lia].
  - rewrite !append_length, !substring_length by lia. cbn. split_and!; [lia | done | lia].
Qed.

(** ** The send and decrypt buttons *)

(** X28: [handleSend] reaches [sendMessage] only when no send is under
    way, message and password are not blank and the message has at most
    500 characters.  Otherwise the hook's state and the typed message are
    left as they are.  When it does send, the hook's state is what
    [sendMessage] leaves; the input is cleared on success and kept, with
    the error shown, on failure. *)
Theorem handleSend_guard
    (sendMessage : string -> string -> World -> World * outcome unit)
    (f : Form) (w : World) :
  let r := handleSend sendMessage f w in
  let sent := sendMessage (messageInput f) (password f) w in
  if negb (isSending f) && negb (blank (messageInput f)) && negb (blank (password f))
     && (String.length (messageInput f) <=? 500)%nat
  then snd r = fst sent
       ∧ isSending (fst r) = false
       ∧ (threw (snd sent) = false ->
          messageInput (fst r) = "" ∧ sendError (fst r) = None)
       ∧ (∀ t, snd sent = Threw t ->
          messageInput (fst r) = messageInput f
          ∧ sendError (fst r) = Some (messageOr "Failed to send" t))
  else snd r = w
       ∧ messageInput (fst r) = messageInput f
       ∧ (isSending f = false -> sendError (fst r) ≠ None).
Proof.
  cbv zeta. unfold handleSend, MAX_MESSAGE_LENGTH.
  destruct (isSending f); [by cbn|].
  destruct (blank (messageInput f)); [by cbn|].
  destruct (blank (password f)); [by cbn|]. cbn [negb andb orb].
  destruct (Nat.leb_spec (String.length (messageInput f)) 500) as [Hle | Hgt].
  - destruct (Nat.ltb_spec 500 (String.length (messageInput f))); [lia|].
    destruct (sendMessage (messageInput f) (password f) w) as [w' [[]|t]]; cbn;
      split_and!; try done.
    by intros t' [= <-].
  - destruct (Nat.ltb_spec 500 (String.length (messageInput f))); [|lia]. by cbn.
Qed.

(** X29: the decrypt button with the hook behind it.  With a blank
    password nothing is decrypted and the user is asked for one; with a
    password and an empty list the hook's "No messages to decrypt" is
    shown; with a password, messages and a [getContract] that does not
    throw, every message is decrypted and no error is shown. *)
Theorem handleDecryptAll_outcome
    (decryptText : string -> string -> outcome string)
    (getContract : outcome (option Contract)) (f : Form) (w : World) :
  let r := handleDecryptAll (decryptAllMessages decryptText getContract) f w in
  (blank (password f) = true ->
   snd r = w ∧ sendError (fst r) = Some "Please enter password to decrypt")
  ∧ (blank (password f) = false -> messages w = [] ->
     messages (snd r) = [] ∧ sendError (fst r) = Some "No messages to decrypt")
  ∧ (blank (password f) = false -> messages w ≠ [] -> threw getContract = false ->
     messages (snd r) = map (decryptOne decryptText (password f)) (messages w)
     ∧ sendError (fst r) = None)
  ∧ isDecrypting (fst r) = (blank (password f) && isDecrypting f).
Proof.
  cbv zeta. unfold handleDecryptAll.
  destruct (blank (password f)); [by cbn|]. cbn [andb].
  split_and!; try done.
  - intros _ Hnil. unfold decryptAllMessages.
    destruct (HookFacts.decryptAllMessages_try_cases decryptText getContract
                (password f) (setError None (setLoading true w)))
      as [(_ & ->) | [(Hcons & _) | (Hcons & _)]]; by cbn.
  - intros _ Hcons Hok.
    by rewrite (ClientFacts.decryptAllMessages_returned _ _ _ _ Hcons Hok).
  - by destruct (decryptAllMessages _ _ _ _) as [w' [[]|t]].
Qed.

Lemma handleDecryptAll_outcome_witness :
  sendError (fst (handleDecryptAll
                    (decryptAllMessages Samples.sample_decryptText (Returned None))
                    ChatSamples.typed (mkWorld [] false None ∅)))
  = Some "No messages to decrypt".
Proof.
  destruct (handleDecryptAll_outcome Samples.sample_decryptText (Returned None)
              ChatSamples.typed (mkWorld [] false None ∅)) as (_ & Hempty & _).
  by destruct (Hempty eq_refl eq_refl).
Defined.

End ChatFacts.
